(** * zap: the view controller of the file registry, verified

    A shallow embedding of the Go sources of [zap] (package [main], with
    [internal/models], [internal/storage] and [internal/editor]) and the
    properties of its view controller: the matcher, the duplicate check of
    the record store, the projection (sort, filter, group headers), the
    display-index resolver, the column layout and the delete confirmation.

    Conventions of the embedding.
    - A Go [string] is a byte string: Rocq's [string], whose characters are
      8-bit [ascii] values.  [strings.ToLower] and [strings.EqualFold] run
      their ASCII fast paths, written out here, on text without a byte
      above 0x7f, and the Unicode tables on the rest: that part is library
      code and is a parameter ([unicode_ToLower], [unicode_EqualFold]).
      [strings.TrimSpace] is embedded on its ASCII path.
    - A Go [int] is a [Z].  Every integer of the modelled code is a slice
      length, an index below one, a column width or a terminal dimension
      (16-bit in the window-size message), so 64-bit wrap-around is not
      reachable and is not written out.
    - A slice is a [list]; an index expression out of range is a run-time
      panic, written [Panic].
    - Methods with a pointer receiver are state passing over [model].
    - What the program asks of the operating system (home directory,
      [os.Stat], the registry file) is read from an explicit [World]. *)

From Stdlib Require Import ZArith Ascii String Lia.
From stdpp Require Import base tactics option list sorting strings.

Local Open Scope Z_scope.

(** ** Bytes and strings ([strings] package, ASCII paths) *)

Definition byte_code (c : ascii) : nat := nat_of_ascii c.

Definition is_upper (c : ascii) : bool :=
  (65 <=? byte_code c)%nat && (byte_code c <=? 90)%nat.

(** ['A' <= c <= 'Z'] is mapped to [c + ('a' - 'A')]. *)
Definition lower_byte (c : ascii) : ascii :=
  if is_upper c then ascii_of_nat (byte_code c + 32) else c.

(** The ASCII path of [strings.ToLower]: every byte lowered. *)
Fixpoint lowerASCII (s : string) : string :=
  match s with
  | EmptyString => EmptyString
  | String c s' => String (lower_byte c) (lowerASCII s')
  end.

(** No byte of the string is [utf8.RuneSelf] (0x80) or above. *)
Fixpoint isASCII (s : string) : bool :=
  match s with
  | EmptyString => true
  | String c s' => (byte_code c <? 128)%nat && isASCII s'
  end.

(** One step of the ASCII loop of [strings.EqualFold]: equal bytes, or,
    after ordering the two bytes, an upper-case letter and its lower-case
    form. *)
Definition fold_eq_byte (sr tr : ascii) : bool :=
  if Ascii.eqb tr sr then true
  else
    let lo := if (byte_code tr <? byte_code sr)%nat then tr else sr in
    let hi := if (byte_code tr <? byte_code sr)%nat then sr else tr in
    is_upper lo && (byte_code hi =? byte_code lo + 32)%nat.

(** [strings.HasPrefix]. *)
Definition HasPrefix (s prefix : string) : bool := String.prefix prefix s.

(** [strings.Contains]: some suffix of [s] starts with [substr]. *)
Fixpoint Contains (s substr : string) : bool :=
  HasPrefix s substr ||
  match s with
  | EmptyString => false
  | String _ s' => Contains s' substr
  end.

(** The ASCII white space of [strings.TrimSpace]:
    tab, line feed, vertical tab, form feed, carriage return, space. *)
Definition is_space (c : ascii) : bool :=
  let n := byte_code c in
  ((9 <=? n)%nat && (n <=? 13)%nat) || (n =? 32)%nat.

Fixpoint trim_left (s : string) : string :=
  match s with
  | EmptyString => EmptyString
  | String c s' => if is_space c then trim_left s' else s
  end.

Fixpoint trim_right (s : string) : string :=
  match s with
  | EmptyString => EmptyString
  | String c s' =>
      match trim_right s' with
      | EmptyString => if is_space c then EmptyString else String c EmptyString
      | r => String c r
      end
  end.

(** [strings.TrimSpace]. *)
Definition TrimSpace (s : string) : string := trim_right (trim_left s).

(** [s < t] on Go strings: lexicographic on bytes. *)
Definition str_lt (s t : string) : bool := String.ltb s t.

(** [s[i:]]. *)
Definition str_from (i : nat) (s : string) : string :=
  String.substring i (String.length s - i) s.

(** The bytes of a string, for statements about subsequences. *)
Definition bytes (s : string) : list ascii := list_ascii_of_string s.

(** ** [internal/models] *)

(** [time.Time], as nanoseconds since the zero instant. *)
Definition Time := Z.
Definition IsZero (t : Time) : bool := (t =? 0).
Definition After (t u : Time) : bool := (u <? t).

Record ConfigEntry := {
  Name : string;
  Path : string;
  Type_ : string;
  Project : string;
  Description : string;
  LastOpened : Time;
  Tags : list string;
}.

Global Instance ConfigEntry_eq_dec : EqDecision ConfigEntry.
Proof. solve_decision. Defined.

(** [ConfigEntry.Equals]: structural identity on Name, Path, Project. *)
Definition Equals (c other : ConfigEntry) : bool :=
  String.eqb (Name c) (Name other) &&
  String.eqb (Path c) (Path other) &&
  String.eqb (Project c) (Project other).

Definition set_Name (v : string) (c : ConfigEntry) : ConfigEntry :=
  {| Name := v; Path := Path c; Type_ := Type_ c; Project := Project c;
     Description := Description c; LastOpened := LastOpened c;
     Tags := Tags c |}.
Definition set_Path (v : string) (c : ConfigEntry) : ConfigEntry :=
  {| Name := Name c; Path := v; Type_ := Type_ c; Project := Project c;
     Description := Description c; LastOpened := LastOpened c;
     Tags := Tags c |}.
Definition set_Type (v : string) (c : ConfigEntry) : ConfigEntry :=
  {| Name := Name c; Path := Path c; Type_ := v; Project := Project c;
     Description := Description c; LastOpened := LastOpened c;
     Tags := Tags c |}.
Definition set_Project (v : string) (c : ConfigEntry) : ConfigEntry :=
  {| Name := Name c; Path := Path c; Type_ := Type_ c; Project := v;
     Description := Description c; LastOpened := LastOpened c;
     Tags := Tags c |}.
Definition set_Description (v : string) (c : ConfigEntry) : ConfigEntry :=
  {| Name := Name c; Path := Path c; Type_ := Type_ c; Project := Project c;
     Description := v; LastOpened := LastOpened c; Tags := Tags c |}.
Definition set_LastOpened (v : Time) (c : ConfigEntry) : ConfigEntry :=
  {| Name := Name c; Path := Path c; Type_ := Type_ c; Project := Project c;
     Description := Description c; LastOpened := v; Tags := Tags c |}.

(** [filepath.Ext]: the suffix from the last dot of the last path element. *)
Fixpoint Ext (path : string) : string :=
  match path with
  | EmptyString => EmptyString
  | String c rest =>
      match Ext rest with
      | EmptyString =>
          if Ascii.eqb c "."%char && negb (Contains rest "/") then path
          else EmptyString
      | e => e
      end
  end.

(** ** The matcher ([fuzzyMatch]) *)

(** The loop of [fuzzyMatch], on the two indices; it returns the final
    [patternIdx].  [textIdx] grows at every turn, so [len(text)] turns are
    enough: [fuel] counts them. *)
Fixpoint fuzzyMatch_loop (fuel : nat) (pattern text : string)
    (patternIdx textIdx : nat) : nat :=
  match fuel with
  | O => patternIdx
  | S fuel' =>
      if (textIdx <? String.length text)%nat
         && (patternIdx <? String.length pattern)%nat
      then
        match String.get textIdx text, String.get patternIdx pattern with
        | Some t, Some p =>
            if Ascii.eqb t p
            then fuzzyMatch_loop fuel' pattern text (S patternIdx) (S textIdx)
            else fuzzyMatch_loop fuel' pattern text patternIdx (S textIdx)
        | _, _ => patternIdx
        end
      else patternIdx
  end.

Definition fuzzyMatch (pattern text : string) : bool :=
  if String.eqb pattern "" then true
  else if String.eqb text "" then false
  else (fuzzyMatch_loop (String.length text) pattern text 0 0
        =? String.length pattern)%nat.


(** ** Run-time outcomes *)

(** A function either returns or panics (index out of range). *)
Inductive res (A : Type) : Type :=
  | Ok (a : A)
  | Panic.
Arguments Ok {A} a.
Arguments Panic {A}.

Global Instance res_ret : MRet res := λ A a, Ok a.
Global Instance res_bind : MBind res := λ A B f r,
  match r with
  | Ok a => f a
  | Panic => Panic
  end.

(** [len(l)]. *)
Definition len {A} (l : list A) : Z := Z.of_nat (length l).

(** [l[i]], with Go's bounds check. *)
Definition index {A} (l : list A) (i : Z) : res A :=
  if (0 <=? i) && (i <? len l) then
    match l !! Z.to_nat i with
    | Some x => Ok x
    | None => Panic
    end
  else Panic.

(** [append(l[:i], l[i+1:]...)] for [0 <= i < len(l)]. *)
Definition remove_at {A} (i : Z) (l : list A) : list A :=
  take (Z.to_nat i) l ++ drop (Z.to_nat (i + 1)) l.

(** ** The table widget (bubbles [table.Model]), by the fields it stores

    Every setter of the widget stores its argument ([SetCursor] clamps to
    the rows) and then renders the rows of its window again
    ([UpdateViewport], below). The stores come first. What the widget does
    with a key is left to [table_Update]. *)

Record Column := { Title : string; Width : Z }.

Definition Row := list string.

Record Table := {
  Columns : list Column;
  Rows : list Row;
  Cursor : Z;
  Height : Z;
}.

Definition withColumns (c : list Column) (t : Table) : Table :=
  {| Columns := c; Rows := Rows t; Cursor := Cursor t; Height := Height t |}.
Definition withRows (r : list Row) (t : Table) : Table :=
  {| Columns := Columns t; Rows := r; Cursor := Cursor t; Height := Height t |}.
Definition withHeight (h : Z) (t : Table) : Table :=
  {| Columns := Columns t; Rows := Rows t; Cursor := Cursor t; Height := h |}.
Definition withCursor (n : Z) (t : Table) : Table :=
  {| Columns := Columns t; Rows := Rows t;
     Cursor := Z.min (Z.max n 0) (len (Rows t) - 1); Height := Height t |}.

(** [renderRow] reads [m.cols[i]] for every cell [i] of the row: an index
    out of range when the row has more cells than the table has
    columns. *)
Definition renderRow (cols : list Column) (row : Row) : res unit :=
  if (length cols <? length row)%nat then Panic else Ok tt.

(** ** The libraries the program calls *)

(** What [sort.Slice] asks of [less]: a strict weak ordering. *)
Class StrictWeakOrder {A} (less : A → A → bool) : Prop := {
  swo_irrefl a : less a a = false;
  swo_trans a b c : less a b = true → less b c = true → less a c = true;
  swo_incomp a b c :
    less a b = false → less b a = false →
    less b c = false → less c b = false →
    less a c = false ∧ less c a = false;
}.

(** [sort.Slice] compares elements of the slice only, so it asks this of
    [less] on the elements of the slice. *)
Record StrictWeakOrderOn {A} (less : A → A → bool) (l : list A) : Prop := {
  swo_on_irrefl a : a ∈ l → less a a = false;
  swo_on_trans a b c :
    a ∈ l → b ∈ l → c ∈ l →
    less a b = true → less b c = true → less a c = true;
  swo_on_incomp a b c :
    a ∈ l → b ∈ l → c ∈ l →
    less a b = false → less b a = false →
    less b c = false → less c b = false →
    less a c = false ∧ less c a = false;
}.

(** Library code the program calls: [sort.Slice], [filepath.Join] and the
    Unicode paths of [strings.ToLower] and [strings.EqualFold] of the Go
    standard library, and the two bubbles widgets.  [sort.Slice] is not
    stable; its contract is that the result is a rearrangement of the
    input in which no element is [less] than an earlier one, when [less]
    is a strict weak ordering on the elements of the input; for any other
    [less] only the rearrangement is promised.  Of the table widget the
    class holds the key handling and the window of rows it renders (the
    rows around the cursor that fit the viewport), which are rows of the
    table. *)
Class GoLib : Type := {
  sort_Slice : ∀ {A}, (A → A → bool) → list A → list A;
  sort_Slice_perm : ∀ {A} (less : A → A → bool) l, sort_Slice less l ≡ₚ l;
  sort_Slice_sorted : ∀ {A} (less : A → A → bool) l,
    StrictWeakOrderOn less l →
    StronglySorted (λ a b, less b a = false) (sort_Slice less l);
  filepath_Join : string → string → string;
  textinput_Update : string → string → string;  (* key, value before *)
  table_Update : string → Table → Table;        (* key, widget before *)
  table_window : Table → list Row;              (* the rows rendered *)
  table_window_rows : ∀ t row, row ∈ table_window t → row ∈ Rows t;
  unicode_ToLower : string → string;    (* strings.Map(unicode.ToLower, s) *)
  unicode_EqualFold : string → string → bool;
                                 (* EqualFold from its label hasUnicode *)
}.

(** ** [strings.ToLower], [strings.EqualFold] and what is built on them *)

Section Strings.
Context `{GoLib}.

(** [strings.ToLower]: the ASCII path when the string has no byte above
    0x7f, and [strings.Map(unicode.ToLower, s)] otherwise. *)
Definition ToLower (s : string) : string :=
  if isASCII s then lowerASCII s else unicode_ToLower s.

(** [strings.EqualFold]: the byte loop while both bytes are ASCII, then
    [len(s) == len(t)]; at the first byte above 0x7f in either string the
    rest of the two strings goes to the loop on runes. *)
Fixpoint EqualFold (s t : string) : bool :=
  match s, t with
  | EmptyString, EmptyString => true
  | String sr s', String tr t' =>
      if (128 <=? byte_code sr)%nat || (128 <=? byte_code tr)%nat
      then unicode_EqualFold s t
      else fold_eq_byte sr tr && EqualFold s' t'
  | _, _ => false
  end.

(** [models.DetectFileType]. *)
Definition DetectFileType (path : string) : string :=
  let ext := ToLower (Ext path) in
  if String.eqb ext ".json" then "json"
  else if String.eqb ext ".yaml" || String.eqb ext ".yml" then "yaml"
  else if String.eqb ext ".toml" then "toml"
  else if String.eqb ext ".ini" || String.eqb ext ".conf" then "ini"
  else if String.eqb ext ".xml" then "xml"
  else if String.eqb ext ".md" || String.eqb ext ".markdown" then "markdown"
  else if String.eqb ext ".txt" then "txt"
  else if String.eqb ext ".sh" then "shell"
  else if String.eqb ext ".go" then "go"
  else if String.eqb ext ".py" then "python"
  else if String.eqb ext ".js" then "javascript"
  else if String.eqb ext ".ts" then "typescript"
  else if String.eqb ext ".rb" then "ruby"
  else "txt".

(** [UpdateViewport]: the widget renders the rows of its window, and
    panics when one of them does. *)
Definition UpdateViewport (t : Table) : res Table :=
  if forallb (λ row, match renderRow (Columns t) row with
                     | Ok _ => true
                     | Panic => false
                     end) (table_window t)
  then Ok t else Panic.

(** The setters of the widget: the store, then [UpdateViewport]. *)
Definition SetColumns (c : list Column) (t : Table) : res Table :=
  UpdateViewport (withColumns c t).
Definition SetRows (r : list Row) (t : Table) : res Table :=
  UpdateViewport (withRows r t).
Definition SetHeight (h : Z) (t : Table) : res Table :=
  UpdateViewport (withHeight h t).
Definition SetCursor (n : Z) (t : Table) : res Table :=
  UpdateViewport (withCursor n t).

End Strings.

(** ** The operating system *)

Record World := {
  home_dir : option string;      (* os.UserHomeDir, None when it fails *)
  stat_ok : string → bool;       (* os.Stat(path) returns no error *)
  disk : list ConfigEntry;       (* the registry file, as last written *)
  save_fails : bool;             (* Storage.Save returns an error *)
  load_fails : bool;             (* Storage.Load returns an error *)
  now : Time;                    (* time.Now() *)
}.

Definition set_disk (d : list ConfigEntry) (w : World) : World :=
  {| home_dir := home_dir w; stat_ok := stat_ok w; disk := d;
     save_fails := save_fails w; load_fails := load_fails w; now := now w |}.

(** [Storage.Load]: [None] for an error. *)
Definition Load (w : World) : option (list ConfigEntry) :=
  if load_fails w then None else Some (disk w).

(** [Storage.Save]: [true] for a nil error. *)
Definition Save (w : World) (configs : list ConfigEntry) : bool * World :=
  if save_fails w then (false, w) else (true, set_disk configs w).

(** ** [internal/storage], [internal/editor] *)

Section Packages.
Context `{GoLib}.

(** The [less] closure of [SortConfigs]. *)
Definition SortConfigs_less (ci cj : ConfigEntry) : bool :=
  let projectI := if String.eqb (Project ci) "" then "General" else Project ci in
  let projectJ := if String.eqb (Project cj) "" then "General" else Project cj in
  if negb (EqualFold projectI projectJ) then
    str_lt (ToLower projectI) (ToLower projectJ)
  else str_lt (ToLower (Name ci)) (ToLower (Name cj)).

Definition SortConfigs (configs : list ConfigEntry) : list ConfigEntry :=
  sort_Slice SortConfigs_less configs.

Definition SortByRecentlyOpened_less (ci cj : ConfigEntry) : bool :=
  After (LastOpened ci) (LastOpened cj).

Definition SortByRecentlyOpened (configs : list ConfigEntry)
    : list ConfigEntry :=
  sort_Slice SortByRecentlyOpened_less configs.

(** [storage.FindDuplicates]: the first entry with this path. *)
Fixpoint FindDuplicates (configs : list ConfigEntry) (path : string)
    : option ConfigEntry :=
  match configs with
  | [] => None
  | c :: rest =>
      if String.eqb (Path c) path then Some c else FindDuplicates rest path
  end.

(** [editor.ExpandPath]. *)
Definition ExpandPath (w : World) (path : string) : string :=
  if HasPrefix path "~/" then
    match home_dir w with
    | None => path
    | Some homeDir => filepath_Join homeDir (str_from 2 path)
    end
  else path.

(** [editor.FileExists]. *)
Definition FileExists (w : World) (path : string) : bool :=
  stat_ok w (ExpandPath w path).

End Packages.

(** ** The model *)

Inductive ViewMode :=
  | ModeNormal | ModeEdit | ModeAdd | ModeSearch | ModeHelp | ModeConfirmDelete.

Global Instance ViewMode_eq_dec : EqDecision ViewMode.
Proof. solve_decision. Defined.

(** The fields of [model]; the text inputs are reduced to their value,
    and the status line and the storage handle are left to [Cmd] and
    [World]. *)
Record model := {
  configs : list ConfigEntry;
  table : Table;
  width : Z;
  height : Z;
  mode : ViewMode;
  editRow : Z;
  editCol : Z;
  textInput : string;
  searchInput : string;
  searchQuery : string;
  fuzzyMode : bool;
  deleteIndex : Z;
  scrollOffset : Z;
  maxCols : Z;
  configIndices : list Z;
  allColumns : list Column;
  sortedCache : option (list ConfigEntry);
  cacheValid : bool;
  sortByRecent : bool;
}.

(** Assignments to one field. *)
Definition set_configs (v : list ConfigEntry) (m : model) : model :=
  {| configs := v; table := table m; width := width m; height := height m;
     mode := mode m; editRow := editRow m; editCol := editCol m; textInput
     := textInput m; searchInput := searchInput m; searchQuery :=
     searchQuery m; fuzzyMode := fuzzyMode m; deleteIndex := deleteIndex
     m; scrollOffset := scrollOffset m; maxCols := maxCols m;
     configIndices := configIndices m; allColumns := allColumns m;
     sortedCache := sortedCache m; cacheValid := cacheValid m;
     sortByRecent := sortByRecent m |}.
Definition set_table (v : Table) (m : model) : model :=
  {| configs := configs m; table := v; width := width m; height := height
     m; mode := mode m; editRow := editRow m; editCol := editCol m;
     textInput := textInput m; searchInput := searchInput m; searchQuery
     := searchQuery m; fuzzyMode := fuzzyMode m; deleteIndex :=
     deleteIndex m; scrollOffset := scrollOffset m; maxCols := maxCols m;
     configIndices := configIndices m; allColumns := allColumns m;
     sortedCache := sortedCache m; cacheValid := cacheValid m;
     sortByRecent := sortByRecent m |}.
Definition set_width (v : Z) (m : model) : model :=
  {| configs := configs m; table := table m; width := v; height := height
     m; mode := mode m; editRow := editRow m; editCol := editCol m;
     textInput := textInput m; searchInput := searchInput m; searchQuery
     := searchQuery m; fuzzyMode := fuzzyMode m; deleteIndex :=
     deleteIndex m; scrollOffset := scrollOffset m; maxCols := maxCols m;
     configIndices := configIndices m; allColumns := allColumns m;
     sortedCache := sortedCache m; cacheValid := cacheValid m;
     sortByRecent := sortByRecent m |}.
Definition set_height (v : Z) (m : model) : model :=
  {| configs := configs m; table := table m; width := width m; height :=
     v; mode := mode m; editRow := editRow m; editCol := editCol m;
     textInput := textInput m; searchInput := searchInput m; searchQuery
     := searchQuery m; fuzzyMode := fuzzyMode m; deleteIndex :=
     deleteIndex m; scrollOffset := scrollOffset m; maxCols := maxCols m;
     configIndices := configIndices m; allColumns := allColumns m;
     sortedCache := sortedCache m; cacheValid := cacheValid m;
     sortByRecent := sortByRecent m |}.
Definition set_mode (v : ViewMode) (m : model) : model :=
  {| configs := configs m; table := table m; width := width m; height :=
     height m; mode := v; editRow := editRow m; editCol := editCol m;
     textInput := textInput m; searchInput := searchInput m; searchQuery
     := searchQuery m; fuzzyMode := fuzzyMode m; deleteIndex :=
     deleteIndex m; scrollOffset := scrollOffset m; maxCols := maxCols m;
     configIndices := configIndices m; allColumns := allColumns m;
     sortedCache := sortedCache m; cacheValid := cacheValid m;
     sortByRecent := sortByRecent m |}.
Definition set_editRow (v : Z) (m : model) : model :=
  {| configs := configs m; table := table m; width := width m; height :=
     height m; mode := mode m; editRow := v; editCol := editCol m;
     textInput := textInput m; searchInput := searchInput m; searchQuery
     := searchQuery m; fuzzyMode := fuzzyMode m; deleteIndex :=
     deleteIndex m; scrollOffset := scrollOffset m; maxCols := maxCols m;
     configIndices := configIndices m; allColumns := allColumns m;
     sortedCache := sortedCache m; cacheValid := cacheValid m;
     sortByRecent := sortByRecent m |}.
Definition set_editCol (v : Z) (m : model) : model :=
  {| configs := configs m; table := table m; width := width m; height :=
     height m; mode := mode m; editRow := editRow m; editCol := v;
     textInput := textInput m; searchInput := searchInput m; searchQuery
     := searchQuery m; fuzzyMode := fuzzyMode m; deleteIndex :=
     deleteIndex m; scrollOffset := scrollOffset m; maxCols := maxCols m;
     configIndices := configIndices m; allColumns := allColumns m;
     sortedCache := sortedCache m; cacheValid := cacheValid m;
     sortByRecent := sortByRecent m |}.
Definition set_textInput (v : string) (m : model) : model :=
  {| configs := configs m; table := table m; width := width m; height :=
     height m; mode := mode m; editRow := editRow m; editCol := editCol m;
     textInput := v; searchInput := searchInput m; searchQuery :=
     searchQuery m; fuzzyMode := fuzzyMode m; deleteIndex := deleteIndex
     m; scrollOffset := scrollOffset m; maxCols := maxCols m;
     configIndices := configIndices m; allColumns := allColumns m;
     sortedCache := sortedCache m; cacheValid := cacheValid m;
     sortByRecent := sortByRecent m |}.
Definition set_searchInput (v : string) (m : model) : model :=
  {| configs := configs m; table := table m; width := width m; height :=
     height m; mode := mode m; editRow := editRow m; editCol := editCol m;
     textInput := textInput m; searchInput := v; searchQuery :=
     searchQuery m; fuzzyMode := fuzzyMode m; deleteIndex := deleteIndex
     m; scrollOffset := scrollOffset m; maxCols := maxCols m;
     configIndices := configIndices m; allColumns := allColumns m;
     sortedCache := sortedCache m; cacheValid := cacheValid m;
     sortByRecent := sortByRecent m |}.
Definition set_searchQuery (v : string) (m : model) : model :=
  {| configs := configs m; table := table m; width := width m; height :=
     height m; mode := mode m; editRow := editRow m; editCol := editCol m;
     textInput := textInput m; searchInput := searchInput m; searchQuery
     := v; fuzzyMode := fuzzyMode m; deleteIndex := deleteIndex m;
     scrollOffset := scrollOffset m; maxCols := maxCols m; configIndices
     := configIndices m; allColumns := allColumns m; sortedCache :=
     sortedCache m; cacheValid := cacheValid m; sortByRecent :=
     sortByRecent m |}.
Definition set_fuzzyMode (v : bool) (m : model) : model :=
  {| configs := configs m; table := table m; width := width m; height :=
     height m; mode := mode m; editRow := editRow m; editCol := editCol m;
     textInput := textInput m; searchInput := searchInput m; searchQuery
     := searchQuery m; fuzzyMode := v; deleteIndex := deleteIndex m;
     scrollOffset := scrollOffset m; maxCols := maxCols m; configIndices
     := configIndices m; allColumns := allColumns m; sortedCache :=
     sortedCache m; cacheValid := cacheValid m; sortByRecent :=
     sortByRecent m |}.
Definition set_deleteIndex (v : Z) (m : model) : model :=
  {| configs := configs m; table := table m; width := width m; height :=
     height m; mode := mode m; editRow := editRow m; editCol := editCol m;
     textInput := textInput m; searchInput := searchInput m; searchQuery
     := searchQuery m; fuzzyMode := fuzzyMode m; deleteIndex := v;
     scrollOffset := scrollOffset m; maxCols := maxCols m; configIndices
     := configIndices m; allColumns := allColumns m; sortedCache :=
     sortedCache m; cacheValid := cacheValid m; sortByRecent :=
     sortByRecent m |}.
Definition set_scrollOffset (v : Z) (m : model) : model :=
  {| configs := configs m; table := table m; width := width m; height :=
     height m; mode := mode m; editRow := editRow m; editCol := editCol m;
     textInput := textInput m; searchInput := searchInput m; searchQuery
     := searchQuery m; fuzzyMode := fuzzyMode m; deleteIndex :=
     deleteIndex m; scrollOffset := v; maxCols := maxCols m; configIndices
     := configIndices m; allColumns := allColumns m; sortedCache :=
     sortedCache m; cacheValid := cacheValid m; sortByRecent :=
     sortByRecent m |}.
Definition set_maxCols (v : Z) (m : model) : model :=
  {| configs := configs m; table := table m; width := width m; height :=
     height m; mode := mode m; editRow := editRow m; editCol := editCol m;
     textInput := textInput m; searchInput := searchInput m; searchQuery
     := searchQuery m; fuzzyMode := fuzzyMode m; deleteIndex :=
     deleteIndex m; scrollOffset := scrollOffset m; maxCols := v;
     configIndices := configIndices m; allColumns := allColumns m;
     sortedCache := sortedCache m; cacheValid := cacheValid m;
     sortByRecent := sortByRecent m |}.
Definition set_configIndices (v : list Z) (m : model) : model :=
  {| configs := configs m; table := table m; width := width m; height :=
     height m; mode := mode m; editRow := editRow m; editCol := editCol m;
     textInput := textInput m; searchInput := searchInput m; searchQuery
     := searchQuery m; fuzzyMode := fuzzyMode m; deleteIndex :=
     deleteIndex m; scrollOffset := scrollOffset m; maxCols := maxCols m;
     configIndices := v; allColumns := allColumns m; sortedCache :=
     sortedCache m; cacheValid := cacheValid m; sortByRecent :=
     sortByRecent m |}.
Definition set_allColumns (v : list Column) (m : model) : model :=
  {| configs := configs m; table := table m; width := width m; height :=
     height m; mode := mode m; editRow := editRow m; editCol := editCol m;
     textInput := textInput m; searchInput := searchInput m; searchQuery
     := searchQuery m; fuzzyMode := fuzzyMode m; deleteIndex :=
     deleteIndex m; scrollOffset := scrollOffset m; maxCols := maxCols m;
     configIndices := configIndices m; allColumns := v; sortedCache :=
     sortedCache m; cacheValid := cacheValid m; sortByRecent :=
     sortByRecent m |}.
Definition set_sortedCache (v : option (list ConfigEntry)) (m : model) : model :=
  {| configs := configs m; table := table m; width := width m; height :=
     height m; mode := mode m; editRow := editRow m; editCol := editCol m;
     textInput := textInput m; searchInput := searchInput m; searchQuery
     := searchQuery m; fuzzyMode := fuzzyMode m; deleteIndex :=
     deleteIndex m; scrollOffset := scrollOffset m; maxCols := maxCols m;
     configIndices := configIndices m; allColumns := allColumns m;
     sortedCache := v; cacheValid := cacheValid m; sortByRecent :=
     sortByRecent m |}.
Definition set_cacheValid (v : bool) (m : model) : model :=
  {| configs := configs m; table := table m; width := width m; height :=
     height m; mode := mode m; editRow := editRow m; editCol := editCol m;
     textInput := textInput m; searchInput := searchInput m; searchQuery
     := searchQuery m; fuzzyMode := fuzzyMode m; deleteIndex :=
     deleteIndex m; scrollOffset := scrollOffset m; maxCols := maxCols m;
     configIndices := configIndices m; allColumns := allColumns m;
     sortedCache := sortedCache m; cacheValid := v; sortByRecent :=
     sortByRecent m |}.
Definition set_sortByRecent (v : bool) (m : model) : model :=
  {| configs := configs m; table := table m; width := width m; height :=
     height m; mode := mode m; editRow := editRow m; editCol := editCol m;
     textInput := textInput m; searchInput := searchInput m; searchQuery
     := searchQuery m; fuzzyMode := fuzzyMode m; deleteIndex :=
     deleteIndex m; scrollOffset := scrollOffset m; maxCols := maxCols m;
     configIndices := configIndices m; allColumns := allColumns m;
     sortedCache := sortedCache m; cacheValid := cacheValid m;
     sortByRecent := v |}.

(** ** Package [main] *)

(** The errors [saveEdit] returns. *)
Inductive error :=
  | ErrInvalidEditRow          (* "invalid edit row" *)
  | ErrNameEmpty               (* "name cannot be empty" *)
  | ErrPathEmpty               (* "path cannot be empty" *)
  | ErrDuplicate (name : string)  (* "file already registered as '%s'" *)
  | ErrSave.                   (* the error of Storage.Save *)

(** The status lines, by message rather than by text. *)
Inductive Status :=
  | StFailedToSave (e : error)
  | StDeleted (name : string)
  | StDeletionCancelled
  | StDeletePrompt (name : string)
  | StAdding
  | StNoFilesToEdit
  | StInvalidSelection
  | StFileAdded
  | StFileUpdated
  | StSortedByRecent
  | StSortedByProject
  | StSearchMode
  | StFuzzyMode
  | StSearchCleared
  | StFoundMatches (matchCount : Z)
  | StFailedToReload
  | StRefreshed.

(** The commands [Update] hands back to the run time. *)
Inductive Cmd :=
  | NoCmd
  | showStatus (s : Status)
  | OpenConfig (config : ConfigEntry)
  | Quit.

(** The messages of [Update] that reach the view controller. *)
Inductive Msg :=
  | KeyMsg (key : string)
  | WindowSizeMsg (Width Height : Z).

Section Main.
Context `{GoLib}.

Definition matchesSearch (m : model) (config : ConfigEntry) (query : string)
    : bool :=
  if fuzzyMode m then
    fuzzyMatch query (ToLower (Name config)) ||
    fuzzyMatch query (ToLower (Project config)) ||
    fuzzyMatch query (ToLower (Path config)) ||
    fuzzyMatch query (ToLower (Description config))
  else
    Contains (ToLower (Name config)) query ||
    Contains (ToLower (Project config)) query ||
    Contains (ToLower (Type_ config)) query ||
    Contains (ToLower (Path config)) query ||
    Contains (ToLower (Description config)) query.

Definition getSortedConfigs (m : model) : list ConfigEntry * model :=
  match cacheValid m, sortedCache m with
  | true, Some cache => (cache, m)
  | _, _ =>
      let sorted :=
        if sortByRecent m then SortByRecentlyOpened (configs m)
        else SortConfigs (configs m) in
      (sorted, set_cacheValid true (set_sortedCache (Some sorted) m))
  end.

Definition getFilteredConfigs (m : model) : list ConfigEntry * model :=
  let '(sorted, m) := getSortedConfigs m in
  if String.eqb (searchQuery m) "" then (sorted, m)
  else
    let query := ToLower (searchQuery m) in
    (List.filter (λ config, matchesSearch m config query) sorted, m).

Definition getFilteredConfigsCount (m : model) : Z * model :=
  let '(filtered, m) := getFilteredConfigs m in (len filtered, m).

Definition getColumnIndex (title : string) : Z :=
  if String.eqb title "Name" then 0
  else if String.eqb title "Project" then 1
  else if String.eqb title "Type" then 2
  else if String.eqb title "Path" then 3
  else if String.eqb title "Description" then 4
  else -1.

(** The marks: file missing, file opened before, project header. *)
Definition markMissing : string := "❌ ".
Definition markOpened : string := "✓ ".
Definition markFolder : string := "📂 ".

(** The variables of the loop of [updateTable]. *)
Record tableLoop := {
  rows : list Row;
  indices : list Z;
  lastProject : string;
  configIndex : Z;
}.

(** [make(table.Row, n)] with [headerRow[0] = projectHeader]. *)
Definition makeHeaderRow (visibleColumns : list Column)
    (projectHeader : string) : res Row :=
  if decide (length visibleColumns = 0%nat) then Panic
  else Ok (<[0%nat := projectHeader]> (replicate (length visibleColumns) "")).

(** The visible cells of a record row. *)
Definition makeVisibleRow (visibleColumns : list Column)
    (fullRowData : list string) : Row :=
  (λ col,
     let columnIndex := getColumnIndex (Title col) in
     if (0 <=? columnIndex) && (columnIndex <? len fullRowData)
     then default "" (fullRowData !! Z.to_nat columnIndex)
     else "") <$> visibleColumns.

(** One turn of the loop of [updateTable]. *)
Definition updateTable_step (w : World) (byRecent : bool)
    (visibleColumns : list Column) (st : tableLoop) (config : ConfigEntry)
    : res tableLoop :=
  let displayProject :=
    if String.eqb (Project config) "" then "General" else Project config in
  st ← (if negb byRecent && negb (String.eqb displayProject (lastProject st))
        then
          headerRow ← makeHeaderRow visibleColumns (markFolder +:+ displayProject);
          Ok {| rows := rows st ++ [headerRow];
                indices := indices st ++ [-1];
                lastProject := displayProject;
                configIndex := configIndex st |}
        else Ok st);
  let name := Name config in
  let name :=
    if negb (FileExists w (Path config)) then markMissing +:+ name
    else if negb (IsZero (LastOpened config)) then markOpened +:+ name
    else name in
  let fullRowData :=
    [name; displayProject; Type_ config; Path config; Description config] in
  let visibleRow := makeVisibleRow visibleColumns fullRowData in
  Ok {| rows := rows st ++ [visibleRow];
        indices := indices st ++ [configIndex st];
        lastProject := lastProject st;
        configIndex := configIndex st + 1 |}.

Fixpoint updateTable_loop (w : World) (byRecent : bool)
    (visibleColumns : list Column) (filteredConfigs : list ConfigEntry)
    (st : tableLoop) : res tableLoop :=
  match filteredConfigs with
  | [] => Ok st
  | config :: rest =>
      st ← updateTable_step w byRecent visibleColumns st config;
      updateTable_loop w byRecent visibleColumns rest st
  end.

Definition updateTable (w : World) (m : model) : res model :=
  let '(filteredConfigs, m) := getFilteredConfigs m in
  let visibleColumns := Columns (table m) in
  st ← updateTable_loop w (sortByRecent m) visibleColumns filteredConfigs
         {| rows := []; indices := []; lastProject := ""; configIndex := 0 |};
  let m := set_configIndices (indices st) m in
  t ← SetRows (rows st) (table m);
  Ok (set_table t m).

(** The first loop of [adjustLayout]: the running total and the count. *)
Fixpoint fitColumns (cols : list Column) (availableWidth : Z)
    (totalWidth visibleCols : Z) : Z * Z :=
  match cols with
  | [] => (totalWidth, visibleCols)
  | col :: rest =>
      if totalWidth + Width col <=? availableWidth
      then fitColumns rest availableWidth (totalWidth + Width col)
             (visibleCols + 1)
      else (totalWidth, visibleCols)
  end.

(** The loop [for i := startCol; i < endCol && i < len(allColumns); i++]. *)
Fixpoint windowColumns (fuel : nat) (allCols : list Column) (i endCol : Z)
    (visibleColumns : list Column) : res (list Column) :=
  match fuel with
  | O => Ok visibleColumns
  | S fuel' =>
      if (i <? endCol) && (i <? len allCols) then
        col ← index allCols i;
        windowColumns fuel' allCols (i + 1) endCol (visibleColumns ++ [col])
      else Ok visibleColumns
  end.

Definition usedWidth (visibleColumns : list Column) : Z :=
  foldl (λ acc col, acc + Width col) 0 visibleColumns.

Definition addWidth (extraWidth : Z) (col : Column) : Column :=
  {| Title := Title col; Width := Width col + extraWidth |}.

Definition adjustLayout (m : model) : res model :=
  let tableHeight := if height m - 6 <? 5 then 5 else height m - 6 in
  let availableWidth := width m - 6 in
  let '(_, visibleCols) := fitColumns (allColumns m) availableWidth 0 0 in
  '(visibleCols, m) ←
    (if visibleCols =? 0 then
       firstCol ← index (allColumns m) 0;
       let firstCol := {| Title := Title firstCol; Width := availableWidth |} in
       Ok (1, set_allColumns (<[0%nat := firstCol]> (allColumns m)) m)
     else Ok (visibleCols, m));
  let startCol := scrollOffset m in
  let endCol := startCol + visibleCols in
  let '(startCol, endCol, m) :=
    if endCol >? len (allColumns m) then
      let endCol := len (allColumns m) in
      let startCol := endCol - visibleCols in
      let startCol := if startCol <? 0 then 0 else startCol in
      (startCol, endCol, set_scrollOffset startCol m)
    else (startCol, endCol, m) in
  visibleColumns ←
    windowColumns (S (length (allColumns m))) (allColumns m) startCol endCol [];
  let visibleColumns :=
    if len visibleColumns >? 0 then
      let extraWidth := availableWidth - usedWidth visibleColumns in
      if extraWidth >? 0 then
        alter (addWidth extraWidth) (length visibleColumns - 1)%nat
          visibleColumns
      else visibleColumns
    else visibleColumns in
  t ← SetColumns visibleColumns (table m);
  t ← SetHeight tableHeight t;
  Ok (set_maxCols (len (allColumns m)) (set_table t m)).

(** [for i := range m.configs]: the first index whose entry [Equals]. *)
Fixpoint findEqual (cs : list ConfigEntry) (sortedConfig : ConfigEntry)
    (i : Z) : option (Z * ConfigEntry) :=
  match cs with
  | [] => None
  | c :: rest =>
      if Equals c sortedConfig then Some (i, c)
      else findEqual rest sortedConfig (i + 1)
  end.

(** The result is a pointer into [m.configs]: the index and the entry
    it points to; [None] is [nil]. *)
Definition getConfigByDisplayIndex (m : model) (displayIndex : Z)
    : res (option (Z * ConfigEntry) * model) :=
  if (displayIndex <? 0) || (displayIndex >=? len (configIndices m))
  then Ok (None, m)
  else
    configIndex ← index (configIndices m) displayIndex;
    if configIndex =? -1 then Ok (None, m)
    else
      let '(filteredConfigs, m) := getFilteredConfigs m in
      if configIndex >=? len filteredConfigs then Ok (None, m)
      else
        sortedConfig ← index filteredConfigs configIndex;
        Ok (findEqual (configs m) sortedConfig 0, m).

Fixpoint findConfigDisplayIndex_loop (targetConfig : ConfigEntry)
    (configIndices : list Z) (i : Z) (m : model) : res (Z * model) :=
  match configIndices with
  | [] => Ok (-1, m)
  | configIndex :: rest =>
      if configIndex =? -1
      then findConfigDisplayIndex_loop targetConfig rest (i + 1) m
      else
        let '(filteredConfigs, m) := getFilteredConfigs m in
        if configIndex <? len filteredConfigs then
          config ← index filteredConfigs configIndex;
          if Equals config targetConfig then Ok (i, m)
          else findConfigDisplayIndex_loop targetConfig rest (i + 1) m
        else findConfigDisplayIndex_loop targetConfig rest (i + 1) m
  end.

Definition findConfigDisplayIndex (m : model) (targetConfig : ConfigEntry)
    : res (Z * model) :=
  findConfigDisplayIndex_loop targetConfig (configIndices m) 0 m.

Definition getOriginalIndexByDisplayIndex (m : model) (displayIndex : Z)
    : res (Z * model) :=
  if (displayIndex <? 0) || (displayIndex >=? len (configIndices m))
  then Ok (-1, m)
  else
    configIndex ← index (configIndices m) displayIndex;
    if configIndex =? -1 then Ok (-1, m)
    else
      let '(filteredConfigs, m) := getFilteredConfigs m in
      if configIndex >=? len filteredConfigs then Ok (-1, m)
      else
        sortedConfig ← index filteredConfigs configIndex;
        Ok (default (-1) (fst <$> findEqual (configs m) sortedConfig 0), m).

Definition placeholderPath : string := "~/path/to/file".

Definition loadEditField (m : model) : model :=
  if (editRow m <? 0) || (editRow m >=? len (configs m)) then m
  else
    match configs m !! Z.to_nat (editRow m) with
    | None => m
    | Some config =>
        let value :=
          if editCol m =? 0 then Name config
          else if editCol m =? 1 then Project config
          else if editCol m =? 2 then Type_ config
          else if editCol m =? 3 then Path config
          else if editCol m =? 4 then Description config
          else "" in
        set_textInput value m
    end.

(** [m.configs[m.editRow].f = v]. *)
Definition storeField (f : ConfigEntry → ConfigEntry) (m : model) : model :=
  set_configs (alter f (Z.to_nat (editRow m)) (configs m)) m.

(** The duplicate check of the Path case. *)
Definition checkDuplicate (m : model) (cur : ConfigEntry)
    (expandedPath : string) : option error :=
  if bool_decide (mode m = ModeAdd)
     || negb (String.eqb (Path cur) expandedPath)
  then
    match FindDuplicates (configs m) expandedPath with
    | Some dup =>
        if negb (Equals dup cur) then Some (ErrDuplicate (Name dup)) else None
    | None => None
    end
  else None.

(** The [switch m.editCol] of [saveEdit]: an early return with an error,
    or the model with the field stored. *)
Definition saveEdit_switch (w : World) (m : model) (cur : ConfigEntry)
    (value : string) : error + model :=
  if editCol m =? 0 then
    if String.eqb value "" then inl ErrNameEmpty
    else inr (storeField (set_Name value) m)
  else if editCol m =? 1 then inr (storeField (set_Project value) m)
  else if editCol m =? 2 then inr (storeField (set_Type value) m)
  else if editCol m =? 3 then
    if String.eqb value "" then inl ErrPathEmpty
    else
      let expandedPath := ExpandPath w value in
      match checkDuplicate m cur expandedPath with
      | Some e => inl e
      | None =>
          let m := storeField (set_Path expandedPath) m in
          if String.eqb (Type_ cur) "" || String.eqb (Type_ cur) "txt"
          then inr (storeField (set_Type (DetectFileType expandedPath)) m)
          else inr m
      end
  else if editCol m =? 4 then inr (storeField (set_Description value) m)
  else inr m.

Definition saveEdit (w : World) (m : model)
    : res (option error * model * World) :=
  if (editRow m <? 0) || (editRow m >=? len (configs m))
  then Ok (Some ErrInvalidEditRow, m, w)
  else
    cur ← index (configs m) (editRow m);
    let value := TrimSpace (textInput m) in
    match saveEdit_switch w m cur value with
    | inl e => Ok (Some e, m, w)
    | inr m =>
        let '(ok, w) := Save w (configs m) in
        if ok then
          m ← updateTable w (set_cacheValid false m);
          Ok (None, m, w)
        else Ok (Some ErrSave, m, w)
    end.

Definition cancelEdit (w : World) (m : model) : res model :=
  let m :=
    if bool_decide (mode m = ModeAdd)
       && (editRow m >=? 0) && (editRow m <? len (configs m))
    then
      match configs m !! Z.to_nat (editRow m) with
      | Some c =>
          if String.eqb (Path c) placeholderPath
          then set_cacheValid false
                 (set_configs (remove_at (editRow m) (configs m)) m)
          else m
      | None => m
      end
    else m in
  let m := set_mode ModeNormal m in
  let m := set_editRow (-1) m in
  let m := set_editCol (-1) m in
  let m := set_textInput "" m in
  updateTable w m.

Definition newConfig : ConfigEntry :=
  {| Name := "New File"; Path := placeholderPath; Type_ := "txt";
     Project := ""; Description := "File description";
     LastOpened := 0; Tags := [] |}.

Definition addNewConfig (w : World) (m : model) : res (Cmd * model) :=
  let m := set_configs (configs m ++ [newConfig]) m in
  let m := set_cacheValid false m in
  let m := set_mode ModeAdd m in
  let m := set_editRow (len (configs m) - 1) m in
  let m := set_editCol 0 m in
  let m := loadEditField m in
  m ← updateTable w m;
  '(displayIndex, m) ← findConfigDisplayIndex m newConfig;
  m ← (if displayIndex =? -1 then Ok m
       else t ← SetCursor displayIndex (table m); Ok (set_table t m));
  Ok (showStatus StAdding, m).

Definition startEdit (m : model) : res (Cmd * model) :=
  if len (configs m) =? 0 then Ok (showStatus StNoFilesToEdit, m)
  else
    let displayIndex := Cursor (table m) in
    '(row, m) ← getOriginalIndexByDisplayIndex m displayIndex;
    let m := set_editRow row m in
    if row =? -1 then Ok (showStatus StInvalidSelection, m)
    else
      let m := set_mode ModeEdit m in
      let m := set_editCol 0 m in
      Ok (NoCmd, loadEditField m).

(** [msg.String()] is one of the listed keys. *)
Definition key_in (key : string) (keys : list string) : bool :=
  existsb (String.eqb key) keys.

Definition updateHelp (m : model) (key : string) : model * Cmd :=
  (set_mode ModeNormal m, NoCmd).

Definition updateDeleteConfirm (w : World) (m : model) (key : string)
    : res (model * Cmd * World) :=
  if key_in key ["y"; "Y"] then
    if (deleteIndex m >=? 0) && (deleteIndex m <? len (configs m)) then
      c ← index (configs m) (deleteIndex m);
      let configName := Name c in
      let m := set_configs (remove_at (deleteIndex m) (configs m)) m in
      let '(ok, w) := Save w (configs m) in
      if negb ok then
        Ok (set_mode ModeNormal m, showStatus (StFailedToSave ErrSave), w)
      else
        let m := set_cacheValid false m in
        m ← updateTable w m;
        let m := set_mode ModeNormal m in
        let m := set_deleteIndex (-1) m in
        Ok (m, showStatus (StDeleted configName), w)
    else
      Ok (set_deleteIndex (-1) (set_mode ModeNormal m), NoCmd, w)
  else if key_in key ["n"; "N"; "esc"] then
    Ok (set_deleteIndex (-1) (set_mode ModeNormal m),
        showStatus StDeletionCancelled, w)
  else Ok (m, NoCmd, w).

Definition updateEdit (w : World) (m : model) (key : string)
    : res (model * Cmd * World) :=
  if key_in key ["esc"] then
    m ← cancelEdit w m; Ok (m, NoCmd, w)
  else if key_in key ["enter"] then
    '(err, m, w) ← saveEdit w m;
    match err with
    | Some e => Ok (m, showStatus (StFailedToSave e), w)
    | None =>
        m ← cancelEdit w m;
        if bool_decide (mode m = ModeAdd)
        then Ok (m, showStatus StFileAdded, w)
        else Ok (m, showStatus StFileUpdated, w)
    end
  else if key_in key ["tab"] then
    '(err, m, w) ← saveEdit w m;
    match err with
    | Some e => Ok (m, showStatus (StFailedToSave e), w)
    | None =>
        let m := set_editCol (Z.rem (editCol m + 1) 5) m in
        Ok (loadEditField m, NoCmd, w)
    end
  else if key_in key ["shift+tab"] then
    '(err, m, w) ← saveEdit w m;
    match err with
    | Some e => Ok (m, showStatus (StFailedToSave e), w)
    | None =>
        let m := set_editCol (Z.rem (editCol m - 1 + 5) 5) m in
        Ok (loadEditField m, NoCmd, w)
    end
  else Ok (set_textInput (textinput_Update key (textInput m)) m, NoCmd, w).

(** The [d] / [delete] case of [updateNormal]. *)
Definition updateNormal_delete (w : World) (m : model)
    : res (model * Cmd * World) :=
  if len (configs m) >? 0 then
    let displayIndex := Cursor (table m) in
    '(originalIndex, m') ← getOriginalIndexByDisplayIndex m displayIndex;
    if originalIndex =? -1 then Ok (m', NoCmd, w)
    else
      c ← index (configs m') originalIndex;
      let m' := set_mode ModeConfirmDelete m' in
      let m' := set_deleteIndex originalIndex m' in
      Ok (m', showStatus (StDeletePrompt (Name c)), w)
  else Ok (m, NoCmd, w).

(** The [s] case of [updateNormal]. *)
Definition updateNormal_sort (w : World) (m : model)
    : res (model * Cmd * World) :=
  let m := set_sortByRecent (negb (sortByRecent m)) m in
  let m := set_cacheValid false m in
  m ← updateTable w m;
  if sortByRecent m then Ok (m, showStatus StSortedByRecent, w)
  else Ok (m, showStatus StSortedByProject, w).

(** The space / [enter] case of [updateNormal]. *)
Definition updateNormal_open (w : World) (m : model)
    : res (model * Cmd * World) :=
  if len (configs m) >? 0 then
    let displayIndex := Cursor (table m) in
    '(config, m) ← getConfigByDisplayIndex m displayIndex;
    match config with
    | Some (k, config) =>
        let '(m, w) :=
          match findEqual (configs m) config 0 with
          | Some (i, _) =>
              let m :=
                set_configs
                  (alter (set_LastOpened (now w)) (Z.to_nat i) (configs m)) m in
              let '(_, w) := Save w (configs m) in
              (set_cacheValid false m, w)
          | None => (m, w)
          end in
        config ← index (configs m) k;
        Ok (m, OpenConfig config, w)
    | None => Ok (m, NoCmd, w)
    end
  else Ok (m, NoCmd, w).

(** The [r] case of [updateNormal]. *)
Definition updateNormal_reload (w : World) (m : model)
    : res (model * Cmd * World) :=
  match Load w with
  | None => Ok (m, showStatus StFailedToReload, w)
  | Some configs =>
      let m := set_configs configs m in
      let m := set_cacheValid false m in
      m ← updateTable w m;
      Ok (m, showStatus StRefreshed, w)
  end.

(** The [left] and [right] cases of [updateNormal]. *)
Definition updateNormal_left (w : World) (m : model)
    : res (model * Cmd * World) :=
  if scrollOffset m >? 0 then
    let m := set_scrollOffset (scrollOffset m - 1) m in
    m ← adjustLayout m;
    m ← updateTable w m;
    Ok (m, NoCmd, w)
  else Ok (m, NoCmd, w).

Definition updateNormal_right (w : World) (m : model)
    : res (model * Cmd * World) :=
  let maxOffset := maxCols m - len (Columns (table m)) in
  let maxOffset := if maxOffset <? 0 then 0 else maxOffset in
  if scrollOffset m <? maxOffset then
    let m := set_scrollOffset (scrollOffset m + 1) m in
    m ← adjustLayout m;
    m ← updateTable w m;
    Ok (m, NoCmd, w)
  else Ok (m, NoCmd, w).

(** In [return m, m.startEdit()] and [return m, m.addNewConfig()] the
    call runs before [m] is copied into the result, so the result carries
    what the call wrote. *)
Definition updateNormal (w : World) (m : model) (key : string)
    : res (model * Cmd * World) :=
  if key_in key ["q"; "ctrl+c"] then Ok (m, Quit, w)
  else if key_in key ["?"] then Ok (set_mode ModeHelp m, NoCmd, w)
  else if key_in key ["/"] then
    let m := set_mode ModeSearch m in
    let m := set_fuzzyMode false m in
    let m := set_searchInput (searchQuery m) m in
    Ok (m, showStatus StSearchMode, w)
  else if key_in key ["ctrl+f"] then
    let m := set_mode ModeSearch m in
    let m := set_fuzzyMode true m in
    let m := set_searchInput (searchQuery m) m in
    Ok (m, showStatus StFuzzyMode, w)
  else if key_in key ["s"] then updateNormal_sort w m
  else if key_in key ["e"] then
    '(cmd, m) ← startEdit m; Ok (m, cmd, w)
  else if key_in key ["n"; "a"] then
    '(cmd, m) ← addNewConfig w m; Ok (m, cmd, w)
  else if key_in key ["d"; "delete"] then updateNormal_delete w m
  else if key_in key [" "; "enter"] then updateNormal_open w m
  else if key_in key ["r"] then updateNormal_reload w m
  else if key_in key ["left"; "h"] then updateNormal_left w m
  else if key_in key ["right"; "l"] then updateNormal_right w m
  else if key_in key ["k"; "up"; "j"; "down"] then
    Ok (set_table (table_Update key (table m)) m, NoCmd, w)
  else if key_in key ["g"; "home"] then
    t ← SetCursor 0 (table m);
    Ok (set_table t m, NoCmd, w)
  else if key_in key ["G"; "end"] then
    t ← SetCursor (len (Rows (table m)) - 1) (table m);
    Ok (set_table t m, NoCmd, w)
  else if key_in key ["pageup"; "ctrl+u"] then
    let newCursor := Cursor (table m) - Height (table m) in
    let newCursor := if newCursor <? 0 then 0 else newCursor in
    t ← SetCursor newCursor (table m);
    Ok (set_table t m, NoCmd, w)
  else if key_in key ["pagedown"; "ctrl+d"] then
    let newCursor := Cursor (table m) + Height (table m) in
    let maxCursor := len (Rows (table m)) - 1 in
    let newCursor := if newCursor >? maxCursor then maxCursor else newCursor in
    t ← SetCursor newCursor (table m);
    Ok (set_table t m, NoCmd, w)
  else Ok (set_table (table_Update key (table m)) m, NoCmd, w).

Definition updateSearch (w : World) (m : model) (key : string)
    : res (model * Cmd * World) :=
  if key_in key ["esc"] then
    let m := set_mode ModeNormal m in
    let m := set_searchQuery "" m in
    let m := set_fuzzyMode false m in
    let m := set_searchInput "" m in
    let m := set_cacheValid false m in
    m ← updateTable w m;
    Ok (m, showStatus StSearchCleared, w)
  else if key_in key ["enter"] then
    let m := set_mode ModeNormal m in
    let m := set_searchQuery (searchInput m) m in
    let m := set_cacheValid false m in
    m ← updateTable w m;
    if negb (String.eqb (searchQuery m) "") then
      let '(matchCount, m) := getFilteredConfigsCount m in
      Ok (m, showStatus (StFoundMatches matchCount), w)
    else Ok (m, NoCmd, w)
  else
    let m := set_searchInput (textinput_Update key (searchInput m)) m in
    let m := set_searchQuery (searchInput m) m in
    let m := set_cacheValid false m in
    m ← updateTable w m;
    Ok (m, NoCmd, w).

(** [Update], on key and window-size messages. *)
Definition Update (w : World) (m : model) (msg : Msg)
    : res (model * Cmd * World) :=
  match msg with
  | WindowSizeMsg Width Height =>
      let m := set_width Width m in
      let m := set_height Height m in
      m ← adjustLayout m;
      m ← updateTable w m;
      Ok (m, NoCmd, w)
  | KeyMsg key =>
      match mode m with
      | ModeHelp => Ok (updateHelp m key, w)
      | ModeEdit | ModeAdd => updateEdit w m key
      | ModeSearch => updateSearch w m key
      | ModeConfirmDelete => updateDeleteConfirm w m key
      | ModeNormal => updateNormal w m key
      end
  end.

End Main.

(** ** Vocabulary of the statements *)


(** Records for the examples. *)
Definition entry (name project path : string) : ConfigEntry :=
  {| Name := name; Path := path; Type_ := ""; Project := project;
     Description := ""; LastOpened := 0; Tags := [] |}.

(** The group label of a record: its project, ["General"] when empty. *)
Definition displayLabel (c : ConfigEntry) : string :=
  if String.eqb (Project c) "" then "General" else Project c.

Section Keys.
Context `{GoLib}.

(** The two sort keys, case-folded. *)
Definition projectKey (c : ConfigEntry) : string := ToLower (displayLabel c).
Definition nameKey (c : ConfigEntry) : string := ToLower (Name c).

(** [a] may stand before [b]: smaller project key, or the same project key
    and a name key that is not greater. *)
Definition key_le (a b : ConfigEntry) : Prop :=
  str_lt (projectKey a) (projectKey b) = true
  ∨ (projectKey a = projectKey b ∧ str_lt (nameKey b) (nameKey a) = false).

(** The number of distinct group labels up to letter case. *)
Definition distinctProjectsFolded (l : list ConfigEntry) : nat :=
  length (remove_dups (projectKey <$> l)).

(** No two records of the list have labels that differ only in letter
    case. *)
Definition caseCanonical (l : list ConfigEntry) : Prop :=
  ∀ a b, a ∈ l → b ∈ l → projectKey a = projectKey b →
         displayLabel a = displayLabel b.

End Keys.

(** The projects of the records are ASCII text: none has a byte above
    0x7f. *)
Definition asciiProjects (l : list ConfigEntry) : Prop :=
  ∀ c, c ∈ l → isASCII (Project c) = true.

(** The model [main] builds before the first layout. *)
Definition declaredColumns : list Column :=
  [ {| Title := "Name"; Width := 25 |};
    {| Title := "Project"; Width := 20 |};
    {| Title := "Type"; Width := 10 |};
    {| Title := "Path"; Width := 40 |};
    {| Title := "Description"; Width := 30 |} ].

Definition newModel (cs : list ConfigEntry) : model :=
  {| configs := cs;
     table := {| Columns := take 4 declaredColumns; Rows := [];
                 Cursor := 0; Height := 10 |};
     width := 100; height := 24; mode := ModeNormal;
     editRow := -1; editCol := -1; textInput := ""; searchInput := "";
     searchQuery := ""; fuzzyMode := false; deleteIndex := -1;
     scrollOffset := 0; maxCols := 5; configIndices := [];
     allColumns := declaredColumns; sortedCache := None;
     cacheValid := false; sortByRecent := false |}.

(** The first cells of the rows the index map marks as headers. *)
Definition headerLabels (m : model) : list string :=
  (λ p : Row * Z, default "" (head p.1))
    <$> List.filter (λ p : Row * Z, p.2 =? -1)
          (zip (Rows (table m)) (configIndices m)).

(** A sorting function with the contract of [sort.Slice], to run the
    model: insertion before the first element that is not smaller. *)
Fixpoint insert_by {A} (less : A → A → bool) (x : A) (l : list A) : list A :=
  match l with
  | [] => [x]
  | y :: l' => if less x y then x :: l else y :: insert_by less x l'
  end.

Definition insertion_sort {A} (less : A → A → bool) (l : list A) : list A :=
  foldr (insert_by less) [] l.

(** A display row, as the specification names it: a group header, or the
    record at an index of the filtered list. *)
Inductive DisplayRow :=
  | GroupHeader (label : string)
  | RecordRow (index : Z).

(** The entry of the index map for a display row: the sentinel [-1] for a
    header. *)
Definition sentinel (d : DisplayRow) : Z :=
  match d with
  | GroupHeader _ => -1
  | RecordRow i => i
  end.

Definition isHeader (d : DisplayRow) : bool :=
  match d with
  | GroupHeader _ => true
  | RecordRow _ => false
  end.

Section Projection.
Context `{GoLib}.

(** The cells of a header row and of a record row. *)
Definition headerCells (cols : list Column) (label : string) : Row :=
  <[0%nat := markFolder +:+ label]> (replicate (length cols) "").

Definition recordCells (w : World) (cols : list Column) (c : ConfigEntry)
    : Row :=
  let name :=
    if negb (FileExists w (Path c)) then markMissing +:+ Name c
    else if negb (IsZero (LastOpened c)) then markOpened +:+ Name c
    else Name c in
  makeVisibleRow cols [name; displayLabel c; Type_ c; Path c; Description c].

(** The display list the specification describes: in project order a
    header goes immediately before the first row of each run of records
    with the same label, in recent order there is none; [last] is the
    label of the previous record and [i] the index of the next one. *)
Fixpoint projection (w : World) (byRecent : bool) (cols : list Column)
    (last : string) (i : Z) (filtered : list ConfigEntry)
    : list (DisplayRow * Row) :=
  match filtered with
  | [] => []
  | c :: rest =>
      let label := displayLabel c in
      (if negb byRecent && negb (String.eqb label last)
       then [(GroupHeader label, headerCells cols label)] else [])
      ++ (RecordRow i, recordCells w cols c)
         :: projection w byRecent cols (if byRecent then last else label)
              (i + 1) rest
  end.

(** The projection of a model: its filtered list, laid out. *)
Definition project (w : World) (m : model) : list (DisplayRow * Row) :=
  projection w (sortByRecent m) (Columns (table m)) "" 0
    (getFilteredConfigs m).1.

End Projection.

(** The number of runs of equal consecutive labels, after [last]. *)
Fixpoint runs (last : string) (labels : list string) : nat :=
  match labels with
  | [] => 0
  | l :: rest => (if String.eqb l last then 0 else 1) + runs l rest
  end.

(** The number of distinct group labels of a list of records. *)
Definition distinctProjects (l : list ConfigEntry) : nat :=
  length (remove_dups (displayLabel <$> l)).

(** Equal labels stand together. *)
Fixpoint grouped (labels : list string) : Prop :=
  match labels with
  | [] => True
  | x :: rest => (x ∈ rest → head rest = Some x) ∧ grouped rest
  end.

Section Cache.
Context `{GoLib}.

(** What [getSortedConfigs] computes on a cache miss. *)
Definition sortOf (m : model) : list ConfigEntry :=
  if sortByRecent m then SortByRecentlyOpened (configs m)
  else SortConfigs (configs m).

(** The cache, when it is valid, holds the sort of the current store. *)
Definition cacheFresh (m : model) : Prop :=
  cacheValid m = true →
  ∀ cache, sortedCache m = Some cache → cache = sortOf m.

End Cache.

(** An operating system for the examples: one file exists. *)
Definition world0 : World :=
  {| home_dir := Some "/home/u"; stat_ok := λ p, String.eqb p "/etc/hosts";
     disk := []; save_fails := false; load_fails := false; now := 1700 |}.

(** The same operating system after the file was removed. *)
Definition world1 : World :=
  {| home_dir := Some "/home/u"; stat_ok := λ _, false;
     disk := []; save_fails := false; load_fails := false; now := 1800 |}.

(** [k] columns are the greedy prefix for [avail]: every non-empty prefix
    of at most [k] columns has a total width within [avail], and one more
    column would go over. *)
Definition isGreedyPrefix (cols : list Column) (avail : Z) (k : nat) : Prop :=
  (k ≤ length cols)%nat
  ∧ (∀ j, (1 ≤ j ≤ k)%nat → usedWidth (take j cols) ≤ avail)
  ∧ ((k < length cols)%nat → avail < usedWidth (take (S k) cols)).

(** The leftover width goes to the last column of the window. *)
Definition withLeftover (avail : Z) (window : list Column) : list Column :=
  if avail - usedWidth window >? 0
  then alter (addWidth (avail - usedWidth window)) (length window - 1)%nat
         window
  else window.

(** A model in a terminal of the given width, scrolled to an offset. *)
Definition sized (width so : Z) (m : model) : model :=
  set_scrollOffset so (set_width width m).

(** The index map holds the sentinel or indices that are not negative. *)
Definition wellFormedIndices (ci : list Z) : Prop :=
  Forall (λ z, z = -1 ∨ 0 ≤ z) ci.

(** The order of [SortConfigs_less] on the pair of keys. *)
Definition lex_lt (p n p' n' : string) : bool :=
  if bool_decide (p = p') then str_lt n n' else str_lt p p'.

(** The number of columns a layout shows: the length of the greedy
    prefix, or one when no column fits. *)
Definition layoutCount (cols : list Column) (avail : Z) : Z :=
  let visibleCols := (fitColumns cols avail 0 0).2 in
  if visibleCols =? 0 then 1 else visibleCols.

(** No row of the table has more cells than the next layout has
    columns. *)
Definition rowsFit (m : model) : Prop :=
  ∀ row, row ∈ Rows (table m) →
         len row ≤ layoutCount (allColumns m) (width m - 6).

(** The reference tables of letter case, on bytes: they know the ASCII
    letters, U+017F (long s, bytes C5 BF), which folds with s and S and is
    its own lower case, and U+212A (Kelvin sign, bytes E2 84 AA), which
    folds with k and K and has the lower case k. Every other rune is taken
    as its own case. *)
Fixpoint foldCanon (s : string) : string :=
  match s with
  | String "197" (String "191" r) => String "s" (foldCanon r)
  | String "226" (String "132" (String "170" r)) => String "k" (foldCanon r)
  | String c r => String (lower_byte c) (foldCanon r)
  | EmptyString => EmptyString
  end.

Fixpoint lowerRef (s : string) : string :=
  match s with
  | String "226" (String "132" (String "170" r)) => String "k" (lowerRef r)
  | String c r => String (lower_byte c) (lowerRef r)
  | EmptyString => EmptyString
  end.

(** The window of the reference widget, as [UpdateViewport] computes it:
    the rows from [clamp(cursor - h, 0, cursor)] to
    [clamp(cursor + h, cursor, len(rows))], where [h] is the height left
    under a header of one line. *)
Definition clamp (v low high : Z) : Z := Z.min (Z.max v low) high.

Definition windowRef (t : Table) : list Row :=
  let h := Height t - 1 in
  let start := if 0 <=? Cursor t then clamp (Cursor t - h) 0 (Cursor t) else 0 in
  let stop := clamp (Cursor t + h) (Cursor t) (len (Rows t)) in
  take (Z.to_nat (stop - start)) (drop (Z.to_nat start) (Rows t)).

(** The libraries for the examples: insertion sort for [sort.Slice] (it
    meets the contract), a plain join for [filepath.Join], appended keys
    for the text input, a table widget that moves its cursor one row down
    or up and renders the window above, and the reference tables of
    letter case. *)
Definition refLib : GoLib.
Proof.
  refine {| sort_Slice := @insertion_sort;
            filepath_Join := λ a b, a +:+ "/" +:+ b;
            textinput_Update := λ key v, v +:+ key;
            table_Update := λ key t,
              if existsb (String.eqb key) ["j"; "down"]
              then withCursor (Cursor t + 1) t
              else if existsb (String.eqb key) ["k"; "up"]
              then withCursor (Cursor t - 1) t
              else t;
            table_window := windowRef;
            unicode_ToLower := lowerRef;
            unicode_EqualFold := λ s t,
              String.eqb (foldCanon s) (foldCanon t) |}.
  - intros A less l.
    assert (∀ x k, insert_by less x k ≡ₚ x :: k) as Hins.
    { intros x k. induction k as [|y k IH]; simpl; [done|].
      destruct (less x y); [done|]. rewrite IH. apply Permutation_swap. }
    induction l as [|x l IH]; simpl; [done|]. by rewrite Hins, IH.
  - intros A less l [Hirr Htr Hinc].
    assert (∀ a b, a ∈ l → b ∈ l → less a b = true → less b a = false)
      as Hasym.
    { intros a b Ha Hb Hab. destruct (less b a) eqn:Hba; [|done].
      pose proof (Htr a b a Ha Hb Ha Hab Hba) as Haa.
      by rewrite Hirr in Haa. }
    assert (∀ a b c, a ∈ l → b ∈ l → c ∈ l →
              less b a = false → less c b = false → less c a = false)
      as Htrans.
    { intros a b c Ha Hb Hc Hba Hcb. destruct (less c a) eqn:Hca; [|done].
      destruct (less b c) eqn:Hbc.
      { by rewrite (Htr b c a Hb Hc Ha Hbc Hca) in Hba. }
      destruct (less a b) eqn:Hab.
      { by rewrite (Htr c a b Hc Ha Hb Hca Hab) in Hcb. }
      destruct (Hinc c b a Hc Hb Ha Hcb Hbc Hba Hab) as [Hca' _].
      congruence. }
    assert (∀ x k, insert_by less x k ≡ₚ x :: k) as Hins.
    { intros x k. induction k as [|y k IH]; simpl; [done|].
      destruct (less x y); [done|]. rewrite IH. apply Permutation_swap. }
    assert (∀ k, insertion_sort less k ≡ₚ k) as Hperm.
    { intros k. induction k as [|x k IH]; simpl; [done|].
      by rewrite Hins, IH. }
    assert (∀ k, (∀ y, y ∈ k → y ∈ l) →
              StronglySorted (λ a b, less b a = false)
                (insertion_sort less k)) as Hsorted; [|by apply Hsorted].
    intros k. induction k as [|x k IH]; intros Hk; simpl; [constructor|].
    assert (x ∈ l) as Hx by (apply Hk; left).
    assert (∀ y, y ∈ insertion_sort less k → y ∈ l) as Hin.
    { intros y Hy. apply Hk. right. by rewrite <-(Hperm k). }
    specialize (IH (λ y Hy, Hk y (proj2 (elem_of_cons _ _ _) (or_intror Hy)))).
    revert IH Hin. generalize (insertion_sort less k). clear k Hk.
    intros k. induction 1 as [|y k Hsk IH Hy]; intros Hin; simpl.
    { repeat constructor. }
    assert (y ∈ l) as Hyl by (apply Hin; left).
    assert (∀ z, z ∈ k → z ∈ l) as Hkl by (intros z Hz; apply Hin; by right).
    destruct (less x y) eqn:Hxy.
    + constructor; [by constructor|]. constructor; [by apply Hasym|].
      rewrite Forall_forall in Hy. apply Forall_forall. intros z Hz.
      apply (Htrans x y z); auto.
    + constructor; [by apply IH|]. rewrite Hins. by constructor.
  - intros t row. unfold windowRef. intros Hrow.
    by apply subseteq_take, subseteq_drop in Hrow.
Defined.

(** The operating system when the registry file cannot be written. *)
Definition worldNoSave : World :=
  {| home_dir := Some "/home/u"; stat_ok := λ p, String.eqb p "/etc/hosts";
     disk := []; save_fails := true; load_fails := false; now := 1700 |}.

Section Run.
Context `{GoLib}.

(** The model [main] hands to the event loop: the registry as loaded,
    laid out and projected. *)
Definition initModel (w : World) (cs : list ConfigEntry) : res model :=
  m ← adjustLayout (newModel cs);
  updateTable w m.

(** The event loop on a list of events: each message arrives in some
    state of the operating system. *)
Fixpoint run (m : model) (events : list (World * Msg)) : res model :=
  match events with
  | [] => Ok m
  | (w, msg) :: rest =>
      '(m, _, _) ← Update w m msg;
      run m rest
  end.

End Run.

(** The declared columns as a layout may leave them: as they were, or
    with the first column narrowed. *)
Definition narrowed (cols cols' : list Column) : Prop :=
  cols' = cols
  ∨ ∃ first rest a,
      cols = first :: rest ∧ a < Width first
      ∧ cols' = {| Title := Title first; Width := a |} :: rest.

(** Models for the worked instances: a store of two records, the same
    store while the Path of the second record is edited to the path of
    the first, and while the first record awaits the delete
    confirmation. *)
Definition twoRecords : list ConfigEntry :=
  [entry "a" "web" "/p/a"; entry "b" "" "/p/b"].

Definition editingPath : model :=
  set_textInput " /p/a "
    (set_editCol 3 (set_editRow 1 (set_mode ModeEdit (newModel twoRecords)))).

Definition confirming : model :=
  set_deleteIndex 0 (set_mode ModeConfirmDelete (newModel twoRecords)).


(** * Properties *)

(** ** Strings *)



Lemma bytes_inj s t : bytes s = bytes t → s = t.
Proof.
  intros E. rewrite <-(string_of_list_ascii_of_string s),
    <-(string_of_list_ascii_of_string t). unfold bytes in E. by rewrite E.
Qed.


(** ** The matcher *)





Section MatcherProps.
Context `{GoLib}.

Lemma getSortedConfigs_frame m :
  let m' := (getSortedConfigs m).2 in
  configs m' = configs m ∧ table m' = table m ∧ mode m' = mode m
  ∧ searchQuery m' = searchQuery m ∧ fuzzyMode m' = fuzzyMode m
  ∧ configIndices m' = configIndices m ∧ sortByRecent m' = sortByRecent m
  ∧ allColumns m' = allColumns m ∧ scrollOffset m' = scrollOffset m
  ∧ editRow m' = editRow m ∧ editCol m' = editCol m
  ∧ deleteIndex m' = deleteIndex m ∧ textInput m' = textInput m.
Proof.
  unfold getSortedConfigs. destruct m; simpl.
  destruct cacheValid0, sortedCache0; simpl; repeat split.
Qed.

Lemma matchesSearch_fuzzyMode m m' config query :
  fuzzyMode m = fuzzyMode m' →
  matchesSearch m config query = matchesSearch m' config query.
Proof. unfold matchesSearch. by intros ->. Qed.




End MatcherProps.

(** ** Case folding and the order on strings *)

Lemma byte_code_inj a b : byte_code a = byte_code b → a = b.
Proof.
  unfold byte_code. intros E.
  rewrite <-(ascii_nat_embedding a), <-(ascii_nat_embedding b). by rewrite E.
Qed.

Lemma byte_code_lt c : (byte_code c < 256)%nat.
Proof. apply nat_ascii_bounded. Qed.

Lemma is_upper_spec c :
  is_upper c = true ↔ (65 ≤ byte_code c ≤ 90)%nat.
Proof. unfold is_upper. rewrite andb_true_iff, !Nat.leb_le. done. Qed.

Lemma byte_code_lower c :
  byte_code (lower_byte c)
  = if is_upper c then (byte_code c + 32)%nat else byte_code c.
Proof.
  unfold lower_byte. destruct (is_upper c) eqn:E; [|done].
  apply is_upper_spec in E. unfold byte_code in *.
  apply nat_ascii_embedding. lia.
Qed.

Lemma fold_eq_byte_spec a b :
  fold_eq_byte a b = true ↔ lower_byte a = lower_byte b.
Proof.
  unfold fold_eq_byte.
  destruct (Ascii.eqb_spec b a) as [->|Hne]; [done|].
  assert (byte_code a ≠ byte_code b) as Hc
    by (intros E; apply Hne; symmetry; by apply byte_code_inj).
  split.
  - intros Hf. apply byte_code_inj. rewrite !byte_code_lower.
    destruct (Nat.ltb_spec (byte_code b) (byte_code a));
      apply andb_true_iff in Hf as [Hu He];
      apply Nat.eqb_eq in He; pose proof Hu as Hu';
      apply is_upper_spec in Hu'; rewrite Hu;
      (destruct (is_upper _) eqn:E in |- *;
        [apply is_upper_spec in E; lia | lia]).
  - intros E. apply (f_equal byte_code) in E. rewrite !byte_code_lower in E.
    destruct (is_upper a) eqn:Ea, (is_upper b) eqn:Eb;
      try (apply is_upper_spec in Ea); try (apply is_upper_spec in Eb);
      try lia.
    + destruct (Nat.ltb_spec (byte_code b) (byte_code a)); [lia|].
      rewrite (proj2 (is_upper_spec a)) by done. simpl.
      apply Nat.eqb_eq.
      assert (¬ (65 ≤ byte_code b ≤ 90)%nat)
        by (rewrite <-is_upper_spec; congruence). lia.
    + destruct (Nat.ltb_spec (byte_code b) (byte_code a)).
      * rewrite (proj2 (is_upper_spec b)) by done. simpl.
        apply Nat.eqb_eq. lia.
      * assert (¬ (65 ≤ byte_code a ≤ 90)%nat)
          by (rewrite <-is_upper_spec; congruence). lia.
Qed.

(** On ASCII text [EqualFold] is equality of the lower-cased strings. *)
Lemma EqualFold_lowerASCII `{GoLib} s t :
  isASCII s = true → isASCII t = true →
  EqualFold s t = true ↔ lowerASCII s = lowerASCII t.
Proof.
  revert t. induction s as [|a s IH]; intros [|b t]; try done.
  cbn [isASCII EqualFold lowerASCII].
  intros [Ha Hs]%andb_true_iff [Hb Ht]%andb_true_iff.
  apply Nat.ltb_lt in Ha, Hb.
  destruct (Nat.leb_spec 128 (byte_code a)); [lia|].
  destruct (Nat.leb_spec 128 (byte_code b)); [lia|]. cbn [orb].
  rewrite andb_true_iff, fold_eq_byte_spec, IH by done. split.
  - by intros [-> ->].
  - by intros [= -> ->].
Qed.

Lemma EqualFold_ToLower `{GoLib} s t :
  isASCII s = true → isASCII t = true →
  EqualFold s t = true ↔ ToLower s = ToLower t.
Proof.
  intros Hs Ht. unfold ToLower. rewrite Hs, Ht.
  by apply EqualFold_lowerASCII.
Qed.

Lemma displayLabel_ascii c :
  isASCII (Project c) = true → isASCII (displayLabel c) = true.
Proof. unfold displayLabel. by destruct (String.eqb _ _). Qed.

Lemma Ascii_compare_refl a : Ascii.compare a a = Eq.
Proof. unfold Ascii.compare. apply N.compare_refl. Qed.

Lemma String_compare_refl s : String.compare s s = Eq.
Proof.
  induction s as [|a s IH]; simpl; [done|]. by rewrite Ascii_compare_refl.
Qed.

Lemma String_compare_lt_trans a b c :
  String.compare a b = Lt → String.compare b c = Lt → String.compare a c = Lt.
Proof.
  revert b c. induction a as [|x a IH]; intros [|y b] [|z c]; simpl;
    try done.
  destruct (Ascii.compare x y) eqn:Exy; try done;
    destruct (Ascii.compare y z) eqn:Eyz; try done.
  - apply Ascii.compare_eq_iff in Exy, Eyz. subst.
    rewrite Ascii_compare_refl. apply IH.
  - apply Ascii.compare_eq_iff in Exy. subst. by rewrite Eyz.
  - apply Ascii.compare_eq_iff in Eyz. subst. by rewrite Exy.
  - unfold Ascii.compare in *. rewrite N.compare_lt_iff in Exy, Eyz.
    intros _ _. assert (N.compare (N_of_ascii x) (N_of_ascii z) = Lt) as ->;
      [|done]. rewrite N.compare_lt_iff. lia.
Qed.

Lemma str_lt_irrefl s : str_lt s s = false.
Proof. unfold str_lt, String.ltb. by rewrite String_compare_refl. Qed.

Lemma str_lt_trans a b c :
  str_lt a b = true → str_lt b c = true → str_lt a c = true.
Proof.
  unfold str_lt, String.ltb. intros Hab Hbc.
  rewrite (String_compare_lt_trans a b c); [done| |].
  - by destruct (String.compare a b).
  - by destruct (String.compare b c).
Qed.

Lemma str_lt_asym a b : str_lt a b = true → str_lt b a = false.
Proof.
  unfold str_lt, String.ltb. rewrite (String.compare_antisym a b).
  by destruct (String.compare b a).
Qed.

Lemma str_lt_connex a b : str_lt a b = false → str_lt b a = false → a = b.
Proof.
  unfold str_lt, String.ltb. rewrite (String.compare_antisym a b).
  destruct (String.compare b a) eqn:E; simpl; try done.
  intros _ _. symmetry. by apply String.compare_eq_iff.
Qed.

(** ** [SortConfigs] *)

Lemma lex_lt_irrefl p n : lex_lt p n p n = false.
Proof. unfold lex_lt. rewrite bool_decide_eq_true_2 by done. apply str_lt_irrefl. Qed.

Lemma lex_lt_trans p1 n1 p2 n2 p3 n3 :
  lex_lt p1 n1 p2 n2 = true → lex_lt p2 n2 p3 n3 = true →
  lex_lt p1 n1 p3 n3 = true.
Proof.
  unfold lex_lt. repeat case_bool_decide; subst; try done.
  - apply str_lt_trans.
  - intros H1 H2. pose proof (str_lt_trans _ _ _ H1 H2) as H13.
    by rewrite str_lt_irrefl in H13.
  - apply str_lt_trans.
Qed.

Lemma lex_lt_incomp p1 n1 p2 n2 :
  lex_lt p1 n1 p2 n2 = false → lex_lt p2 n2 p1 n1 = false →
  p1 = p2 ∧ n1 = n2.
Proof.
  unfold lex_lt. destruct (decide (p1 = p2)) as [->|H12].
  - rewrite !bool_decide_eq_true_2 by done. eauto using str_lt_connex.
  - rewrite !bool_decide_eq_false_2 by done. intros H1 H2.
    destruct H12. by apply str_lt_connex.
Qed.

Section Comparator.
Context `{GoLib}.

(** Between records with ASCII projects the comparator of [SortConfigs]
    is the order on the pair of keys. *)
Lemma SortConfigs_less_keys a b :
  isASCII (Project a) = true → isASCII (Project b) = true →
  SortConfigs_less a b = lex_lt (projectKey a) (nameKey a)
                           (projectKey b) (nameKey b).
Proof.
  intros Ha%displayLabel_ascii Hb%displayLabel_ascii.
  unfold SortConfigs_less, lex_lt, projectKey, nameKey.
  fold (displayLabel a) (displayLabel b).
  case_bool_decide as E.
  - apply EqualFold_ToLower in E; [|done..]. by rewrite E.
  - destruct (EqualFold (displayLabel a) (displayLabel b)) eqn:E'; [|done].
    by apply EqualFold_ToLower in E'.
Qed.

(** On records with ASCII projects the comparator is a strict weak
    ordering. *)
Lemma SortConfigs_less_swo l :
  asciiProjects l → StrictWeakOrderOn SortConfigs_less l.
Proof.
  intros Hl. split.
  - intros a Ha. rewrite SortConfigs_less_keys by auto. apply lex_lt_irrefl.
  - intros a b c Ha Hb Hc. rewrite !SortConfigs_less_keys by auto.
    apply lex_lt_trans.
  - intros a b c Ha Hb Hc. rewrite !SortConfigs_less_keys by auto.
    intros Hab Hba Hbc Hcb.
    destruct (lex_lt_incomp _ _ _ _ Hab Hba) as [-> ->].
    destruct (lex_lt_incomp _ _ _ _ Hbc Hcb) as [-> ->].
    split; apply lex_lt_irrefl.
Qed.

Lemma SortConfigs_less_key_le a b :
  isASCII (Project a) = true → isASCII (Project b) = true →
  SortConfigs_less b a = false ↔ key_le a b.
Proof.
  intros Ha Hb. rewrite SortConfigs_less_keys by done.
  unfold key_le, lex_lt. case_bool_decide as E.
  - split.
    + intros Hn. by right.
    + intros [Hlt|[_ Hn]]; [|done]. rewrite E, str_lt_irrefl in Hlt. done.
  - split.
    + intros Hn. left. destruct (str_lt (projectKey a) (projectKey b)) eqn:Hl;
        [done|]. exfalso. apply E. by apply str_lt_connex.
    + intros [Hlt|[Heq _]]; [by apply str_lt_asym|congruence].
Qed.

End Comparator.

Lemma StronglySorted_impl_elem {A} (R S : A → A → Prop) l :
  (∀ a b, a ∈ l → b ∈ l → R a b → S a b) →
  StronglySorted R l → StronglySorted S l.
Proof.
  intros HRS Hs. induction Hs as [|x l Hl IH Hx]; constructor.
  - apply IH. intros a b Ha Hb. apply HRS; by right.
  - rewrite Forall_forall in Hx. apply Forall_forall. intros y Hy.
    apply HRS; [left|by right|by apply Hx].
Qed.

Section SortProps.
Context `{GoLib}.

Lemma SortConfigs_perm configs : SortConfigs configs ≡ₚ configs.
Proof. apply sort_Slice_perm. Qed.

Lemma SortConfigs_sorted configs :
  asciiProjects configs → StronglySorted key_le (SortConfigs configs).
Proof.
  intros Hascii. unfold SortConfigs.
  eapply StronglySorted_impl_elem;
    [|exact (sort_Slice_sorted SortConfigs_less configs
               (SortConfigs_less_swo configs Hascii))].
  intros a b Ha Hb. rewrite sort_Slice_perm in Ha, Hb. simpl.
  by apply SortConfigs_less_key_le; apply Hascii.
Qed.

(** A list already in order, whose elements are pairwise comparable, is
    what [SortConfigs] returns for any rearrangement of it, when the
    comparator is a strict weak ordering on its elements. *)
Lemma SortConfigs_unique configs sorted :
  configs ≡ₚ sorted →
  StrictWeakOrderOn SortConfigs_less configs →
  StronglySorted (λ a b, SortConfigs_less b a = false) sorted →
  (∀ a b, a ∈ sorted → b ∈ sorted →
     SortConfigs_less a b = false → SortConfigs_less b a = false → a = b) →
  SortConfigs configs = sorted.
Proof.
  intros Hp Hswo Hs Hanti.
  apply (StronglySorted_unique_strong (λ a b, SortConfigs_less b a = false)).
  - intros a b Ha Hb Hab Hba. apply Hanti; [|done..].
    by rewrite <-Hp, <-(SortConfigs_perm configs).
  - by apply sort_Slice_sorted.
  - done.
  - by rewrite SortConfigs_perm.
Qed.

(** The comparator on three records with the projects Zeta, empty and
    alpha: the projects are ASCII and differ, so the names are never
    read, whatever they hold. *)
Lemma SortConfigs_less_three c1 c2 c3 :
  let z := set_Project "Zeta" c1 in
  let g := set_Project "" c2 in
  let a := set_Project "alpha" c3 in
  SortConfigs_less a g = true ∧ SortConfigs_less g z = true
  ∧ SortConfigs_less a z = true
  ∧ SortConfigs_less g a = false ∧ SortConfigs_less z g = false
  ∧ SortConfigs_less z a = false
  ∧ SortConfigs_less a a = false ∧ SortConfigs_less g g = false
  ∧ SortConfigs_less z z = false.
Proof.
  intros z g a. repeat split; try reflexivity;
    unfold SortConfigs_less; simpl; apply str_lt_irrefl.
Qed.

Lemma SortConfigs_three c1 c2 c3 :
  SortConfigs [set_Project "Zeta" c1; set_Project "" c2; set_Project "alpha" c3]
  = [set_Project "alpha" c3; set_Project "" c2; set_Project "Zeta" c1].
Proof.
  destruct (SortConfigs_less_three c1 c2 c3)
    as (Hag & Hgz & Haz & Hga & Hzg & Hza & Haa & Hgg & Hzz).
  apply SortConfigs_unique.
  - apply (Permutation_rev [_; _; _]).
  - split.
    + intros x Hx. rewrite !elem_of_cons, elem_of_nil in Hx.
      destruct Hx as [->|[->|[->|[]]]]; done.
    + intros x y u Hx Hy Hu.
      rewrite !elem_of_cons, elem_of_nil in Hx, Hy, Hu.
      destruct Hx as [->|[->|[->|[]]]], Hy as [->|[->|[->|[]]]],
        Hu as [->|[->|[->|[]]]]; congruence.
    + intros x y u Hx Hy Hu.
      rewrite !elem_of_cons, elem_of_nil in Hx, Hy, Hu.
      destruct Hx as [->|[->|[->|[]]]], Hy as [->|[->|[->|[]]]],
        Hu as [->|[->|[->|[]]]]; intros; split; congruence.
  - repeat constructor; done.
  - intros x y Hx Hy.
    rewrite !elem_of_cons, elem_of_nil in Hx, Hy.
    destruct Hx as [->|[->|[->|[]]]], Hy as [->|[->|[->|[]]]];
      done || congruence.
Qed.

End SortProps.

(** ** The projection: [getSortedConfigs], [getFilteredConfigs], [updateTable] *)

Section TableProps.
Context `{GoLib}.

Lemma getFilteredConfigs_frame m :
  let m' := (getFilteredConfigs m).2 in
  m' = (getSortedConfigs m).2.
Proof.
  unfold getFilteredConfigs. destruct (getSortedConfigs m) as [s m1].
  simpl. by destruct (String.eqb _ _).
Qed.

(** After a call the cache is set, and a further call returns it. *)
Lemma getSortedConfigs_cached m :
  let '(sorted, m1) := getSortedConfigs m in
  cacheValid m1 = true ∧ sortedCache m1 = Some sorted.
Proof.
  unfold getSortedConfigs. destruct m; simpl.
  destruct cacheValid0, sortedCache0; simpl; done.
Qed.

(** A cache hit: the cached list comes back and nothing is written,
    whatever the store holds. *)
Lemma getSortedConfigs_hit m cache :
  cacheValid m = true → sortedCache m = Some cache →
  getSortedConfigs m = (cache, m).
Proof. unfold getSortedConfigs. by intros -> ->. Qed.

Lemma getFilteredConfigs_hit m cache :
  cacheValid m = true → sortedCache m = Some cache →
  getFilteredConfigs m
  = (if String.eqb (searchQuery m) "" then cache
     else List.filter (λ c, matchesSearch m c (ToLower (searchQuery m))) cache,
     m).
Proof.
  intros Hv Hc. unfold getFilteredConfigs.
  rewrite (getSortedConfigs_hit m cache Hv Hc).
  by destruct (String.eqb _ _).
Qed.

(** What [getFilteredConfigs] reads. *)
Lemma getFilteredConfigs_ext m1 m2 :
  configs m1 = configs m2 → cacheValid m1 = cacheValid m2 →
  sortedCache m1 = sortedCache m2 → sortByRecent m1 = sortByRecent m2 →
  searchQuery m1 = searchQuery m2 → fuzzyMode m1 = fuzzyMode m2 →
  (getFilteredConfigs m1).1 = (getFilteredConfigs m2).1.
Proof.
  destruct m1, m2; simpl. intros -> -> -> -> -> ->.
  unfold getFilteredConfigs, getSortedConfigs; simpl.
  destruct cacheValid1, sortedCache1; simpl;
    destruct (String.eqb searchQuery1 ""); done.
Qed.

(** [getFilteredConfigs], from the result of [getSortedConfigs]. *)
Lemma getFilteredConfigs_eq m :
  getFilteredConfigs m
  = (if String.eqb (searchQuery m) "" then (getSortedConfigs m).1
     else List.filter (λ c, matchesSearch m c (ToLower (searchQuery m)))
            (getSortedConfigs m).1,
     (getSortedConfigs m).2).
Proof.
  unfold getFilteredConfigs.
  pose proof (getSortedConfigs_frame m) as Hf. simpl in Hf.
  destruct (getSortedConfigs m) as [sorted m1]. simpl in *.
  destruct Hf as (_&_&_&Hq&Hfz&_). rewrite Hq.
  destruct (String.eqb (searchQuery m) ""); [done|]. f_equal.
  apply filter_ext. intros c. by apply matchesSearch_fuzzyMode.
Qed.

(** A second call returns the same list and leaves the model as it is. *)
Lemma getFilteredConfigs_again m :
  getFilteredConfigs (getFilteredConfigs m).2
  = ((getFilteredConfigs m).1, (getFilteredConfigs m).2).
Proof.
  rewrite (getFilteredConfigs_eq m). simpl.
  pose proof (getSortedConfigs_cached m) as Hc.
  pose proof (getSortedConfigs_frame m) as Hf. simpl in Hf.
  destruct (getSortedConfigs m) as [sorted m1]. destruct Hc as [Hv Hs].
  destruct Hf as (_&_&_&Hq&Hfz&_). simpl in *.
  rewrite (getFilteredConfigs_hit m1 sorted Hv Hs), Hq. f_equal.
  destruct (String.eqb (searchQuery m) ""); [done|].
  apply filter_ext. intros c. by apply matchesSearch_fuzzyMode.
Qed.

(** The loop of [updateTable] builds the projection, row by row. *)
Lemma updateTable_loop_projection w byRecent cols filtered st :
  cols ≠ [] ∨ byRecent = true →
  ∃ st',
    updateTable_loop w byRecent cols filtered st = Ok st'
    ∧ rows st' = rows st
        ++ (projection w byRecent cols (lastProject st) (configIndex st)
              filtered).*2
    ∧ indices st' = indices st
        ++ (sentinel <$>
            (projection w byRecent cols (lastProject st) (configIndex st)
               filtered).*1).
Proof.
  intros Hcols. revert st.
  induction filtered as [|c rest IH]; intros st; simpl.
  { exists st. by rewrite !app_nil_r. }
  unfold updateTable_step.
  fold (displayLabel c).
  destruct (negb byRecent && negb (String.eqb (displayLabel c) (lastProject st)))
    eqn:Hh; simpl.
  - unfold makeHeaderRow. destruct (decide (length cols = 0%nat)) as [E|_].
    { destruct Hcols as [Hc| ->]; [|done].
      destruct cols; [done|discriminate]. }
    simpl. apply andb_true_iff in Hh as [Hb _].
    apply negb_true_iff in Hb. subst byRecent. simpl.
    edestruct IH as (st' & -> & Hr & Hi). exists st'. split; [done|].
    simpl in Hr, Hi. rewrite Hr, Hi, <-!app_assoc. done.
  - edestruct IH as (st' & -> & Hr & Hi). exists st'. split; [done|].
    simpl in Hr, Hi. rewrite Hr, Hi, <-!app_assoc.
    assert ((if byRecent then lastProject st else displayLabel c)
            = lastProject st) as ->; [|done].
    destruct byRecent; [done|]. simpl in Hh.
    apply negb_false_iff, String.eqb_eq in Hh. done.
Qed.

(** The widget accepts what fits: when no row has more cells than there
    are columns, rendering returns. *)
Lemma UpdateViewport_fit t :
  (∀ row, row ∈ Rows t → (length row ≤ length (Columns t))%nat) →
  UpdateViewport t = Ok t.
Proof.
  intros Hfit. unfold UpdateViewport.
  rewrite (proj2 (forallb_forall _ _)); [done|].
  intros row Hin%list_elem_of_In%table_window_rows. unfold renderRow.
  specialize (Hfit row Hin).
  by destruct (Nat.ltb_spec (length (Columns t)) (length row)); [lia|].
Qed.

(** It panics on a row of its window with more cells than columns. *)
Lemma UpdateViewport_panics t row :
  row ∈ table_window t → (length (Columns t) < length row)%nat →
  UpdateViewport t = Panic.
Proof.
  intros Hin Hlen. unfold UpdateViewport.
  destruct (forallb _ _) eqn:Hall; [|done].
  rewrite forallb_forall in Hall. apply list_elem_of_In in Hin.
  specialize (Hall row Hin). unfold renderRow in Hall.
  by destruct (Nat.ltb_spec (length (Columns t)) (length row)); [|lia].
Qed.

(** Every row of the projection has one cell per column. *)
Lemma projection_cells w byRecent cols last i filtered row :
  row ∈ (projection w byRecent cols last i filtered).*2 →
  length row = length cols.
Proof.
  revert last i. induction filtered as [|c rest IH]; intros last i.
  { intros Hin. by apply elem_of_nil in Hin. }
  cbn [projection]. rewrite fmap_app, fmap_cons, elem_of_app, elem_of_cons.
  intros [Hh|[->|Hr]].
  - destruct (negb byRecent && _); [|by apply elem_of_nil in Hh].
    apply list_elem_of_singleton in Hh as ->. simpl.
    unfold headerCells. by rewrite length_insert, length_replicate.
  - simpl. unfold recordCells, makeVisibleRow. by rewrite length_fmap.
  - by eapply IH.
Qed.

(** [updateTable] returns, with the projection as rows and index map. *)
Lemma updateTable_project w m :
  Columns (table m) ≠ [] ∨ sortByRecent m = true →
  updateTable w m
  = Ok (set_table (withRows (project w m).*2 (table (getFilteredConfigs m).2))
          (set_configIndices (sentinel <$> (project w m).*1)
             (getFilteredConfigs m).2)).
Proof.
  intros Hcols. unfold updateTable, project.
  pose proof (getFilteredConfigs_frame m) as Hfr. simpl in Hfr.
  pose proof (getSortedConfigs_frame m) as Hf. simpl in Hf.
  rewrite <-Hfr in Hf. destruct Hf as (_&Ht&_&_&_&_&Hs&_).
  destruct (getFilteredConfigs m) as [filtered m1]. simpl in *.
  rewrite Ht, Hs.
  edestruct (updateTable_loop_projection w (sortByRecent m)
               (Columns (table m)) filtered) as (st' & -> & Hr & Hi);
    [done|]. simpl in *. rewrite Hr, Hi. simpl.
  unfold SetRows. rewrite UpdateViewport_fit; [done|].
  simpl. intros row Hrow. by rewrite (projection_cells _ _ _ _ _ _ _ Hrow).
Qed.

End TableProps.

Section ProjectionProps.
Context `{GoLib}.

(** Writing the rows and the index map commutes with the filter. *)
Lemma getFilteredConfigs_set_view m t ci :
  getFilteredConfigs (set_table t (set_configIndices ci m))
  = ((getFilteredConfigs m).1,
     set_table t (set_configIndices ci (getFilteredConfigs m).2)).
Proof.
  destruct m; unfold getFilteredConfigs, getSortedConfigs; simpl.
  destruct cacheValid0, sortedCache0; simpl;
    destruct (String.eqb searchQuery0 ""); done.
Qed.

(** The state [updateTable] leaves: the projection as rows and index map,
    the sorted list in the cache, everything else as it was. *)
Lemma updateTable_result w m :
  Columns (table m) ≠ [] ∨ sortByRecent m = true →
  ∃ m',
    updateTable w m = Ok m'
    ∧ Rows (table m') = (project w m).*2
    ∧ configIndices m' = sentinel <$> (project w m).*1
    ∧ getFilteredConfigs m' = ((getFilteredConfigs m).1, m')
    ∧ cacheValid m' = true
    ∧ sortedCache m' = Some (getSortedConfigs m).1
    ∧ configs m' = configs m
    ∧ Columns (table m') = Columns (table m)
    ∧ sortByRecent m' = sortByRecent m
    ∧ searchQuery m' = searchQuery m
    ∧ fuzzyMode m' = fuzzyMode m
    ∧ mode m' = mode m
    ∧ allColumns m' = allColumns m
    ∧ deleteIndex m' = deleteIndex m
    ∧ editRow m' = editRow m.
Proof.
  intros Hcols. eexists. split; [by apply updateTable_project|].
  split; [done|]. split; [done|]. split.
  { rewrite getFilteredConfigs_set_view, getFilteredConfigs_again. done. }
  rewrite (getFilteredConfigs_frame m).
  pose proof (getSortedConfigs_frame m) as Hf. simpl in Hf.
  pose proof (getSortedConfigs_cached m) as Hc.
  destruct (getSortedConfigs m) as [sorted m1]. simpl in *.
  destruct Hc as [Hv Hs].
  destruct Hf as (Hcs&Ht&Hmo&Hq&Hfz&Hci&Hsr&Hac&Hso&Her&Hec&Hdi&Hti).
  destruct m1; simpl in *. subst. repeat split; done.
Qed.

(** After [updateTable] every row has one cell per column, so the
    widget renders them whatever the cursor and the height. *)
Lemma project_rows_fit w m row :
  row ∈ (project w m).*2 → length row = length (Columns (table m)).
Proof. apply projection_cells. Qed.

Lemma SetCursor_fit n t :
  (∀ row, row ∈ Rows t → (length row ≤ length (Columns t))%nat) →
  SetCursor n t = Ok (withCursor n t).
Proof. intros Hfit. unfold SetCursor. by rewrite UpdateViewport_fit. Qed.

(** *** Shape of the projection *)

Lemma projection_length w byRecent cols last i filtered :
  length (projection w byRecent cols last i filtered)
  = (length filtered
     + if byRecent then 0 else runs last (displayLabel <$> filtered))%nat.
Proof.
  revert last i. induction filtered as [|c rest IH]; intros last i.
  { by destruct byRecent. }
  rewrite fmap_cons. cbn [projection runs]. rewrite length_app.
  cbn [length]. rewrite IH.
  destruct byRecent; simpl; [lia|].
  destruct (String.eqb (displayLabel c) last); simpl; lia.
Qed.

Lemma projection_records w byRecent cols last i filtered :
  0 ≤ i →
  List.filter (λ z, negb (z =? -1))
    (sentinel <$> (projection w byRecent cols last i filtered).*1)
  = seqZ i (len filtered).
Proof.
  revert last i. induction filtered as [|c rest IH]; intros last i Hi.
  { done. }
  simpl. rewrite !fmap_app, List.filter_app. simpl.
  assert (List.filter (λ z : Z, negb (z =? -1))
            (sentinel <$>
             (if negb byRecent && negb (String.eqb (displayLabel c) last)
              then [(GroupHeader (displayLabel c),
                     headerCells cols (displayLabel c))]
              else []).*1) = []) as ->.
  { by destruct (negb byRecent && _). }
  simpl. destruct (Z.eqb_spec i (-1)) as [?|_]; [lia|]. simpl.
  rewrite IH by lia. unfold len. simpl length.
  rewrite Nat2Z.inj_succ, (seqZ_cons i) by lia.
  do 2 f_equal; lia.
Qed.

(** In recent order no display row is a header. *)
Lemma projection_recent w cols last i filtered :
  Forall (λ d, isHeader d = false)
    (projection w true cols last i filtered).*1.
Proof.
  revert i. induction filtered as [|c rest IH]; intros i; simpl.
  { constructor. }
  constructor; [done|]. apply IH.
Qed.

(** A header row carries the folder mark and the label, and its entry in
    the index map is the sentinel. *)
Lemma projection_header w byRecent cols last i filtered k label row :
  projection w byRecent cols last i filtered !! k
    = Some (GroupHeader label, row) →
  row = headerCells cols label ∧ byRecent = false.
Proof.
  revert last i k. induction filtered as [|c rest IH]; intros last i k; simpl.
  { by rewrite lookup_nil. }
  destruct (negb byRecent && negb (String.eqb (displayLabel c) last)) eqn:E;
    simpl.
  - destruct k as [|[|k]]; simpl.
    + intros [= <- <-]. split; [done|].
      apply andb_true_iff in E as [E _]. by apply negb_true_iff in E.
    + done.
    + apply IH.
  - destruct k as [|k]; simpl; [done|]. apply IH.
Qed.

(** Without a visible column the first header row cannot be written:
    [headerRow[0]] is out of range. *)
Lemma updateTable_panics w m :
  Columns (table m) = [] → sortByRecent m = false →
  (getFilteredConfigs m).1 ≠ [] →
  updateTable w m = Panic.
Proof.
  intros Hcols Hrecent Hne. unfold updateTable.
  pose proof (getFilteredConfigs_frame m) as Hfr. simpl in Hfr.
  pose proof (getSortedConfigs_frame m) as Hf. simpl in Hf.
  rewrite <-Hfr in Hf. destruct Hf as (_&Ht&_&_&_&_&Hs&_).
  destruct (getFilteredConfigs m) as [[|c rest] m1]; [done|]. simpl in *.
  rewrite Ht, Hs, Hcols, Hrecent. unfold updateTable_step. simpl.
  destruct (String.eqb_spec (Project c) "") as [?|Hp]; [reflexivity|].
  by rewrite (proj2 (String.eqb_neq _ _) Hp).
Qed.

(** C9. After [updateTable] the index map is parallel to the rows: same
    length, the rows being the cells of the projection and the map its
    entries; a header row maps to the sentinel -1; the entries that are
    not the sentinel are 0, 1, ..., k-1 in display order, k the number of
    filtered records, so each is a valid index into the filtered list. *)
Theorem index_map_parallel (w : World) (m : model) :
  Columns (table m) ≠ [] ∨ sortByRecent m = true →
  ∃ m',
    updateTable w m = Ok m'
    ∧ length (configIndices m') = length (Rows (table m'))
    ∧ Rows (table m') = (project w m).*2
    ∧ configIndices m' = sentinel <$> (project w m).*1
    ∧ (∀ i label row,
         project w m !! i = Some (GroupHeader label, row) →
         configIndices m' !! i = Some (-1)
         ∧ Rows (table m') !! i = Some (headerCells (Columns (table m)) label))
    ∧ List.filter (λ z, negb (z =? -1)) (configIndices m')
      = seqZ 0 (len (getFilteredConfigs m').1)
    ∧ (∀ i z, configIndices m' !! i = Some z → z ≠ -1 →
         0 ≤ z < len (getFilteredConfigs m').1).
Proof.
  intros Hcols.
  destruct (updateTable_result w m Hcols) as (m' & Hu & Hr & Hi & Hf & _).
  exists m'. split; [done|]. rewrite Hr, Hi, Hf. simpl.
  split; [by rewrite !length_fmap|]. split; [done|]. split; [done|].
  assert (List.filter (λ z, negb (z =? -1)) (sentinel <$> (project w m).*1)
          = seqZ 0 (len (getFilteredConfigs m).1)) as Hrec
    by (by apply projection_records).
  split; [|split; [done|]].
  - intros i label row Hl.
    rewrite !list_lookup_fmap, Hl. simpl. split; [done|].
    by destruct (projection_header _ _ _ _ _ _ _ _ _ Hl) as [-> _].
  - intros i z Hz Hne.
    assert (z ∈ List.filter (λ z, negb (z =? -1))
                  (sentinel <$> (project w m).*1)) as Hin.
    { apply list_elem_of_In, filter_In. split.
      - apply list_elem_of_In. by eapply list_elem_of_lookup_2.
      - apply negb_true_iff. by apply Z.eqb_neq. }
    rewrite Hrec, elem_of_seqZ in Hin. lia.
Qed.

End ProjectionProps.

(** ** Group headers *)

Lemma runs_grouped last labels :
  grouped labels → (last ∈ labels → head labels = Some last) →
  (runs last labels + (if decide (head labels = Some last) then 1 else 0))%nat
  = length (remove_dups labels).
Proof.
  revert last. induction labels as [|x rest IH]; intros last Hg Hl.
  { cbn [runs remove_dups head]. by rewrite decide_False. }
  destruct Hg as [Hx Hg]. specialize (IH x Hg Hx).
  cbn [runs remove_dups head].
  destruct (String.eqb_spec x last) as [->|Hne].
  - rewrite decide_True by done.
    destruct (decide_rel elem_of last rest) as [Hin|Hin].
    + rewrite decide_True in IH by auto. lia.
    + rewrite decide_False in IH.
      2:{ intros Hh. apply Hin. destruct rest; simplify_eq/=. by left. }
      simpl. lia.
  - rewrite decide_False by congruence.
    destruct (decide_rel elem_of x rest) as [Hin|Hin].
    + rewrite decide_True in IH by auto. lia.
    + rewrite decide_False in IH.
      2:{ intros Hh. apply Hin. destruct rest; simplify_eq/=. by left. }
      simpl. lia.
Qed.

Section HeaderProps.
Context `{GoLib}.

Lemma key_le_projectKey a b :
  key_le a b → str_lt (projectKey b) (projectKey a) = false.
Proof.
  intros [Hlt|[-> _]]; [by apply str_lt_asym|apply str_lt_irrefl].
Qed.

Lemma sorted_grouped l :
  StronglySorted key_le l → caseCanonical l → grouped (displayLabel <$> l).
Proof.
  induction 1 as [|x rest Hs IH Hx]; intros Hc; simpl; [done|]. split.
  - intros Hin. apply list_elem_of_fmap in Hin as (c & Hlc & Hc').
    destruct rest as [|y rest']; [by apply elem_of_nil in Hc'|].
    simpl. f_equal. symmetry. apply Hc; [by left|right; by left|].
    apply Forall_cons in Hx as [Hxy Hx].
    assert (key_le y c) as Hyc.
    { apply elem_of_cons in Hc' as [->|Hc'].
      - right. split; [done|apply str_lt_irrefl].
      - apply StronglySorted_inv in Hs as [_ Hy].
        rewrite Forall_forall in Hy. by apply Hy. }
    assert (projectKey x = projectKey c) as Exc.
    { unfold projectKey. by rewrite Hlc. }
    apply key_le_projectKey in Hxy, Hyc. rewrite <-Exc in Hyc.
    by apply str_lt_connex.
  - apply IH. intros a b Ha Hb. apply Hc; by right.
Qed.

Lemma filter_StronglySorted {A} (R : A → A → Prop) (f : A → bool) l :
  StronglySorted R l → StronglySorted R (List.filter f l).
Proof.
  induction 1 as [|x l Hs IH Hx]; simpl; [constructor|].
  destruct (f x); [|done]. constructor; [done|].
  rewrite Forall_forall in *. intros y Hy. apply Hx.
  apply list_elem_of_In, filter_In in Hy as [Hy _]. by apply list_elem_of_In.
Qed.

Lemma displayLabel_nonempty c : displayLabel c ≠ "".
Proof.
  unfold displayLabel. destruct (String.eqb_spec (Project c) ""); done.
Qed.

(** In a sorted list without labels that differ only in case, the runs
    are the distinct labels. *)
Lemma runs_distinct l :
  StronglySorted key_le l → caseCanonical l →
  runs "" (displayLabel <$> l) = distinctProjects l.
Proof.
  intros Hs Hc. unfold distinctProjects.
  rewrite <-(runs_grouped "" (displayLabel <$> l)).
  - rewrite decide_False; [lia|].
    destruct l; simpl; [done|]. intros [= E]. by apply displayLabel_nonempty in E.
  - by apply sorted_grouped.
  - intros Hin. apply list_elem_of_fmap in Hin as (c & E & _).
    symmetry in E. by apply displayLabel_nonempty in E.
Qed.

Lemma getSortedConfigs_fresh m :
  cacheFresh m → (getSortedConfigs m).1 = sortOf m.
Proof.
  unfold cacheFresh, getSortedConfigs, sortOf.
  destruct (cacheValid m), (sortedCache m) as [cache|]; simpl; try done.
  intros Hf. by apply Hf.
Qed.

Lemma getFilteredConfigs_sorted m :
  cacheFresh m → sortByRecent m = false → asciiProjects (configs m) →
  StronglySorted key_le (getFilteredConfigs m).1.
Proof.
  intros Hf Hr Ha. rewrite getFilteredConfigs_eq. simpl.
  rewrite getSortedConfigs_fresh by done. unfold sortOf. rewrite Hr.
  destruct (String.eqb _ _); [by apply SortConfigs_sorted|].
  by apply filter_StronglySorted, SortConfigs_sorted.
Qed.

(** The header rows are the [GroupHeader] rows of the projection: none
    in recent order, and in project order one immediately before the first
    row of each run of records with the same label. So the number of rows
    is the number of filtered records in recent order, and in project
    order that number plus the number of runs, which is the number of
    distinct projects when the cache is fresh, the projects of the store
    are ASCII text and no two labels of the filtered records differ only
    in letter case. *)
Lemma header_rows_count (w : World) (m : model) :
  Columns (table m) ≠ [] →
  ∃ m',
    updateTable w m = Ok m'
    ∧ Rows (table m') = (project w m).*2
    ∧ configIndices m' = sentinel <$> (project w m).*1
    ∧ (sortByRecent m = true →
       length (Rows (table m')) = length (getFilteredConfigs m).1
       ∧ Forall (λ d, isHeader d = false) (project w m).*1)
    ∧ (sortByRecent m = false →
       length (Rows (table m'))
       = (length (getFilteredConfigs m).1
          + runs "" (displayLabel <$> (getFilteredConfigs m).1))%nat
       ∧ (cacheFresh m → asciiProjects (configs m) →
          caseCanonical (getFilteredConfigs m).1 →
          length (Rows (table m'))
          = (length (getFilteredConfigs m).1
             + distinctProjects (getFilteredConfigs m).1)%nat)).
Proof.
  intros Hcols.
  destruct (updateTable_result w m) as (m' & Hu & Hr & Hi & _); [by left|].
  exists m'. split; [done|]. split; [done|]. split; [done|].
  rewrite Hr, length_fmap. unfold project.
  rewrite projection_length. split.
  - intros ->. split; [lia|]. apply projection_recent.
  - intros E. rewrite E. split; [done|]. intros Hf Ha Hc.
    rewrite runs_distinct; [done| |done].
    by apply getFilteredConfigs_sorted.
Qed.

End HeaderProps.

(** C6. The row count of project order is the number of filtered
    records plus the number of distinct projects; the code misses it when
    two projects differ only in letter case. [SortConfigs] takes "x" and
    "X" for the same project and orders the three records below by name;
    the header test of [updateTable] compares the labels as they are, so
    it emits the headers x, X, x: six rows for three records of two labels
    (one project, up to case). *)
Theorem header_count_case_mismatch :
  let m0 := newModel [entry "a" "x" "/1"; entry "b" "X" "/2";
                      entry "c" "x" "/3"] in
  ∃ m',
    @updateTable refLib world0 m0 = Ok m'
    ∧ sortByRecent m0 = false
    ∧ hd "" <$> Rows (table m')
      = [markFolder +:+ "x"; "❌ a"; markFolder +:+ "X"; "❌ b";
         markFolder +:+ "x"; "❌ c"]
    ∧ length (Rows (table m')) = 6%nat
    ∧ length (@getFilteredConfigs refLib m0).1 = 3%nat
    ∧ distinctProjects (@getFilteredConfigs refLib m0).1 = 2%nat
    ∧ @distinctProjectsFolded refLib (@getFilteredConfigs refLib m0).1 = 1%nat
    ∧ length (Rows (table m'))
      ≠ (length (@getFilteredConfigs refLib m0).1
         + distinctProjects (@getFilteredConfigs refLib m0).1)%nat.
Proof.
  eexists. split; [vm_compute; reflexivity|].
  vm_compute. repeat split; done.
Qed.

(** ** The order of [SortConfigs] *)

Lemma StronglySorted_before {A} (R : A → A → Prop) l (i j : nat) x y :
  StronglySorted R l → l !! i = Some x → l !! j = Some y → (i < j)%nat →
  R x y.
Proof.
  intros Hs. revert i j. induction Hs as [|z l Hl IH Hz]; intros i j Hi Hj Hij.
  { done. }
  destruct i as [|i], j as [|j]; try lia; simplify_eq/=.
  - rewrite Forall_forall in Hz. apply Hz. by eapply list_elem_of_lookup_2.
  - apply (IH i j); [done..|lia].
Qed.

(** A comparator with a cycle leaves no order to find: no list that
    holds the three records has every record before those the comparator
    puts after it. *)
Lemma cyclic_unsortable {A} (less : A → A → bool) (a b c : A) l :
  a ≠ b → b ≠ c → c ≠ a →
  less b c = true → less c a = true → less a b = true →
  a ∈ l → b ∈ l → c ∈ l →
  ¬ StronglySorted (λ x y, less y x = false) l.
Proof.
  intros Nab Nbc Nca Hbc Hca Hab Ha Hb Hc Hs.
  apply list_elem_of_lookup_1 in Ha as [ia Ha].
  apply list_elem_of_lookup_1 in Hb as [ib Hb].
  apply list_elem_of_lookup_1 in Hc as [ic Hc].
  assert (∀ (i j : nat) x y, l !! i = Some x → l !! j = Some y → x ≠ y →
            less x y = true → (i < j)%nat) as Hord.
  { intros i j x y Hi Hj Hne Hxy.
    destruct (decide (i < j)%nat) as [|Hge]; [done|]. exfalso.
    destruct (decide (i = j)) as [->|Hij]; [by simplify_eq|].
    pose proof (StronglySorted_before _ _ j i y x Hs Hj Hi ltac:(lia)) as Hr.
    simpl in Hr. congruence. }
  pose proof (Hord _ _ _ _ Hb Hc Nbc Hbc).
  pose proof (Hord _ _ _ _ Hc Ha Nca Hca).
  pose proof (Hord _ _ _ _ Ha Hb Nab Hab). lia.
Qed.

Section SortOrder.
Context `{GoLib}.

(** On a store whose projects are ASCII text, [SortConfigs] rearranges
    the records so that every record stands before the records that
    follow it in the order "project, lower-cased, with the empty project
    read as General; then name, lower-cased"; and records with the
    projects Zeta, empty and alpha come out as alpha, General, Zeta, which
    is also the order of the group headers. *)
Lemma SortConfigs_by_project_then_name
    (w : World) (configs : list ConfigEntry) (c1 c2 c3 : ConfigEntry) :
  SortConfigs configs ≡ₚ configs
  ∧ (asciiProjects configs → StronglySorted key_le (SortConfigs configs))
  ∧ (let cs := [set_Project "Zeta" c1; set_Project "" c2;
                set_Project "alpha" c3] in
     displayLabel <$> SortConfigs cs = ["alpha"; "General"; "Zeta"]
     ∧ (m ← updateTable w (newModel cs); Ok (headerLabels m))
       = Ok [markFolder +:+ "alpha"; markFolder +:+ "General";
             markFolder +:+ "Zeta"]).
Proof.
  split; [apply SortConfigs_perm|]. split; [apply SortConfigs_sorted|].
  intros cs. subst cs. split.
  - by rewrite SortConfigs_three.
  - rewrite updateTable_project by (by left). cbn [mbind res_bind].
    f_equal. unfold headerLabels, project, getFilteredConfigs,
      getSortedConfigs. simpl.
    rewrite SortConfigs_three. reflexivity.
Qed.

End SortOrder.

(** C5. The order of [SortConfigs] is not the case-insensitive order of
    the projects when a project holds a letter whose case folding is not
    its lower case. [strings.EqualFold] takes "ſ" (U+017F, long s) and "s"
    for the same project, [strings.ToLower] keeps them apart, and the
    project "t" lies between them: the comparator puts b (project s)
    before c (project t), c before a (project ſ) and, by name, a before
    b. No arrangement of the three records is in order for it, and the
    registry c, a, b comes out as it went in, with the project t before
    the project s. *)
Theorem SortConfigs_fold_mismatch :
  let a := entry "a" "ſ" "/1" in
  let b := entry "b" "s" "/2" in
  let c := entry "c" "t" "/3" in
  @EqualFold refLib "ſ" "s" = true
  ∧ @ToLower refLib "ſ" = "ſ"
  ∧ @SortConfigs_less refLib b c = true
  ∧ @SortConfigs_less refLib c a = true
  ∧ @SortConfigs_less refLib a b = true
  ∧ (∀ l, l ≡ₚ [a; b; c] →
       ¬ StronglySorted (λ x y, @SortConfigs_less refLib y x = false) l)
  ∧ Project <$> @SortConfigs refLib [c; a; b] = ["t"; "ſ"; "s"]
  ∧ ¬ StronglySorted (@key_le refLib) (@SortConfigs refLib [c; a; b])
  ∧ (m ← @initModel refLib world0 [c; a; b]; Ok (headerLabels m))
    = Ok [markFolder +:+ "t"; markFolder +:+ "ſ"; markFolder +:+ "s"].
Proof.
  intros a b c.
  split; [reflexivity|]. split; [reflexivity|].
  split; [reflexivity|]. split; [reflexivity|]. split; [reflexivity|].
  split.
  { intros l Hl. apply (cyclic_unsortable _ a b c); try done;
      rewrite Hl, !elem_of_cons; auto. }
  split; [reflexivity|]. split.
  { assert (@SortConfigs refLib [c; a; b] = [c; a; b]) as -> by reflexivity.
    intros Hs. apply StronglySorted_cons in Hs as [Hc _].
    apply Forall_cons in Hc as [_ Hc]. apply Forall_cons in Hc as [Hcb _].
    destruct Hcb as [Hlt|[Heq _]]; [vm_compute in Hlt|vm_compute in Heq];
      discriminate. }
  vm_compute. reflexivity.
Qed.

(** ** The display-index resolver *)

Lemma Equals_spec a b :
  Equals a b = true ↔
  Name a = Name b ∧ Path a = Path b ∧ Project a = Project b.
Proof.
  unfold Equals. rewrite !andb_true_iff, !String.eqb_eq. tauto.
Qed.

Lemma Equals_refl a : Equals a a = true.
Proof. by apply Equals_spec. Qed.

Lemma index_lookup {A} (l : list A) (i : Z) x :
  0 ≤ i → l !! Z.to_nat i = Some x → index l i = Ok x.
Proof.
  intros Hi Hl. unfold index, len.
  pose proof (lookup_lt_Some _ _ _ Hl).
  destruct (Z.leb_spec 0 i); [|lia].
  destruct (Z.ltb_spec i (Z.of_nat (length l))); [|lia].
  simpl. by rewrite Hl.
Qed.

Lemma index_Ok {A} (l : list A) (i : Z) x :
  index l i = Ok x ↔ 0 ≤ i ∧ l !! Z.to_nat i = Some x.
Proof.
  split; [|intros [? ?]; by apply index_lookup].
  unfold index. destruct (Z.leb_spec 0 i); [|done].
  destruct (Z.ltb_spec i (len l)); [|done]. simpl.
  destruct (l !! Z.to_nat i); intros [= ->]; done.
Qed.

Lemma findEqual_Some cs sc i :
  (∃ x, x ∈ cs ∧ Equals x sc = true) →
  ∃ k c, findEqual cs sc i = Some (i + Z.of_nat k, c)
         ∧ cs !! k = Some c ∧ Equals c sc = true.
Proof.
  revert i. induction cs as [|c cs IH]; intros i (x & Hin & He).
  { by apply elem_of_nil in Hin. }
  simpl. destruct (Equals c sc) eqn:Ec.
  - exists 0%nat, c. rewrite Z.add_0_r. done.
  - apply elem_of_cons in Hin as [->|Hin]; [congruence|].
    destruct (IH (i + 1) (ex_intro _ x (conj Hin He))) as (k & c' & -> & ? & ?).
    exists (S k), c'. split; [f_equal; f_equal; lia|done].
Qed.

Section ResolverProps.
Context `{GoLib}.

Lemma sortOf_perm m : sortOf m ≡ₚ configs m.
Proof. unfold sortOf. destruct (sortByRecent m); apply sort_Slice_perm. Qed.

Lemma getFilteredConfigs_subseteq m c :
  cacheFresh m → c ∈ (getFilteredConfigs m).1 → c ∈ configs m.
Proof.
  intros Hf. rewrite getFilteredConfigs_eq, getSortedConfigs_fresh by done.
  simpl. rewrite <-(sortOf_perm m).
  destruct (String.eqb _ _); [done|].
  rewrite list_elem_of_In, filter_In, <-list_elem_of_In. tauto.
Qed.

(** The scan of [findConfigDisplayIndex] over the index map of a
    projection stops at the first record row whose record has the
    identity of the target. *)
Lemma findConfigDisplayIndex_loop_found w byRecent cols m f R :
  getFilteredConfigs m = (f, m) →
  ∀ remaining pre last d,
    f = pre ++ remaining →
    (∃ c, c ∈ remaining ∧ Equals c R = true) →
    ∃ i j c,
      findConfigDisplayIndex_loop R
        (sentinel <$> (projection w byRecent cols last (len pre) remaining).*1)
        d m = Ok (d + Z.of_nat i, m)
      ∧ (sentinel <$> (projection w byRecent cols last (len pre) remaining).*1)
          !! i = Some j
      ∧ 0 ≤ j ∧ f !! Z.to_nat j = Some c ∧ Equals c R = true.
Proof.
  intros Hf. induction remaining as [|c rest IH]; intros pre last d Hpre Hex.
  { destruct Hex as (c & Hc & _). by apply elem_of_nil in Hc. }
  assert (f !! Z.to_nat (len pre) = Some c) as Hlook.
  { unfold len. rewrite Nat2Z.id, Hpre. by apply list_lookup_middle. }
  assert (index f (len pre) = Ok c) as Hidx
    by (apply index_lookup; [unfold len; lia|done]).
  assert ((len pre <? len f) = true) as Hlt.
  { apply Z.ltb_lt. rewrite Hpre. unfold len. rewrite length_app. simpl. lia. }
  assert ((len pre =? -1) = false) as Hne
    by (apply Z.eqb_neq; unfold len; lia).
  (* the record row at the head of the remaining, reached at offset [d'] *)
  assert (∀ d',
    ∃ i j c0,
      findConfigDisplayIndex_loop R
        (len pre :: (sentinel <$>
           (projection w byRecent cols
              (if byRecent then last else displayLabel c) (len pre + 1)
              rest).*1)) d' m = Ok (d' + Z.of_nat i, m)
      ∧ (len pre :: (sentinel <$>
           (projection w byRecent cols
              (if byRecent then last else displayLabel c) (len pre + 1)
              rest).*1)) !! i = Some j
      ∧ 0 ≤ j ∧ f !! Z.to_nat j = Some c0 ∧ Equals c0 R = true) as Hrec.
  { intros d'. cbn [findConfigDisplayIndex_loop].
    rewrite Hne, Hf, Hlt, Hidx. cbn [mbind res_bind].
    destruct (Equals c R) eqn:Ec.
    - exists 0%nat, (len pre), c. rewrite Z.add_0_r.
      repeat split; try done. unfold len; lia.
    - destruct Hex as (c' & Hin & He).
      apply elem_of_cons in Hin as [->|Hin]; [congruence|].
      destruct (IH (pre ++ [c]) (if byRecent then last else displayLabel c)
                  (d' + 1)) as (i & j & c0 & Hl & Hi & Hj & Hfj & Hej).
      { by rewrite <-app_assoc. }
      { by exists c'. }
      assert (len (pre ++ [c]) = len pre + 1) as Elen
        by (unfold len; rewrite length_app; simpl; lia).
      rewrite Elen in Hl, Hi.
      exists (S i), j, c0. rewrite Hl. split; [do 2 f_equal; lia|done]. }
  cbn [projection].
  destruct (negb byRecent && negb (String.eqb (displayLabel c) last)).
  - destruct (Hrec (d + 1)) as (i & j & c0 & Hl & Hi & Hrest).
    exists (S i), j, c0. cbn [app fmap list_fmap fst sentinel].
    cbn [findConfigDisplayIndex_loop]. simpl (-1 =? -1).
    cbv iota. split; [|done].
    etrans; [exact Hl|]. do 2 f_equal. lia.
  - apply Hrec.
Qed.

End ResolverProps.

Section RoundTrip.
Context `{GoLib}.

(** Out of range, and on a header row, [getConfigByDisplayIndex] returns
    nil. *)
Lemma getConfigByDisplayIndex_none m d :
  d < 0 ∨ len (configIndices m) ≤ d ∨ configIndices m !! Z.to_nat d = Some (-1) →
  getConfigByDisplayIndex m d = Ok (None, m).
Proof.
  intros Hd. unfold getConfigByDisplayIndex.
  destruct (Z.ltb_spec d 0) as [?|Hd0]; [done|].
  destruct (Z.geb_spec d (len (configIndices m))) as [?|Hdl]; [done|].
  simpl. destruct Hd as [?|[?|Hs]]; [lia..|].
  by rewrite (index_lookup _ _ _ Hd0 Hs).
Qed.

(** The round trip on a table just rebuilt. After [updateTable] on a
    model whose cache is fresh: for a record R of the filtered list,
    [findConfigDisplayIndex] returns a display index in range, and
    [getConfigByDisplayIndex] at that index returns a pointer to a record
    of the store with the Name, Path and Project of R; for a display index
    out of range or on a header row, [getConfigByDisplayIndex] returns
    nil. Neither call changes the model. A store changed under a cache
    still marked valid is not covered. *)
Lemma resolver_round_trip (w : World) (m : model) (R : ConfigEntry) :
  Columns (table m) ≠ [] → cacheFresh m →
  ∃ m',
    updateTable w m = Ok m'
    ∧ (R ∈ (getFilteredConfigs m').1 →
       ∃ i k c,
         findConfigDisplayIndex m' R = Ok (i, m')
         ∧ 0 ≤ i < len (configIndices m')
         ∧ getConfigByDisplayIndex m' i = Ok (Some (k, c), m')
         ∧ configs m' !! Z.to_nat k = Some c ∧ 0 ≤ k
         ∧ Name c = Name R ∧ Path c = Path R ∧ Project c = Project R)
    ∧ (∀ d,
         d < 0 ∨ len (configIndices m') ≤ d
         ∨ (0 ≤ d ∧ ∃ label row,
              project w m !! Z.to_nat d = Some (GroupHeader label, row)) →
         getConfigByDisplayIndex m' d = Ok (None, m')).
Proof.
  intros Hcols Hfresh.
  destruct (updateTable_result w m)
    as (m' & Hu & Hr & Hi & Hf & _ & _ & Hcs & _); [by left|].
  exists m'. split; [done|]. split.
  - rewrite Hf. simpl. intros HR.
    destruct (findConfigDisplayIndex_loop_found w (sortByRecent m)
                (Columns (table m)) m' (getFilteredConfigs m).1 R Hf
                (getFilteredConfigs m).1 [] "" 0 eq_refl)
      as (i & j & sc & Hl & Hij & Hj & Hfj & He).
    { exists R. split; [done|apply Equals_refl]. }
    change (len []) with 0 in Hl, Hij. fold (project w m) in Hl, Hij.
    rewrite <-Hi in Hl, Hij. rewrite Z.add_0_l in Hl.
    pose proof (lookup_lt_Some _ _ _ Hij) as Hlen.
    destruct (findEqual_Some (configs m') sc 0) as (k & c & Hk & Hck & Hec).
    { exists sc. split; [|apply Equals_refl]. rewrite Hcs.
      apply getFilteredConfigs_subseteq; [done|].
      by eapply list_elem_of_lookup_2. }
    exists (Z.of_nat i), (Z.of_nat k), c.
    split; [exact Hl|]. split; [unfold len; lia|]. split.
    + unfold getConfigByDisplayIndex.
      destruct (Z.ltb_spec (Z.of_nat i) 0); [lia|].
      destruct (Z.geb_spec (Z.of_nat i) (len (configIndices m')));
        [unfold len in *; lia|]. simpl.
      rewrite (index_lookup _ _ j) by (rewrite ?Nat2Z.id; done || lia).
      cbn [mbind res_bind].
      destruct (Z.eqb_spec j (-1)); [lia|]. rewrite Hf.
      pose proof (lookup_lt_Some _ _ _ Hfj).
      destruct (Z.geb_spec j (len (getFilteredConfigs m).1));
        [unfold len in *; lia|].
      rewrite (index_lookup _ _ sc) by done. cbn [mbind res_bind].
      by rewrite Hk.
    + rewrite Nat2Z.id. split; [done|]. split; [lia|].
      apply Equals_spec in Hec, He. destruct Hec as (?&?&?), He as (?&?&?).
      repeat split; congruence.
  - intros d Hd. apply getConfigByDisplayIndex_none.
    destruct Hd as [?|[?|(Hd0 & label & row & Hp)]]; [by left|by right; left|].
    right; right. by rewrite Hi, !list_lookup_fmap, Hp.
Qed.

End RoundTrip.

(** ** Memoization of the projection *)

Section CacheProps.
Context `{GoLib}.

(** The display rows, cells apart, do not depend on the operating system
    nor on the visible columns. *)
Lemma projection_kinds w w' byRecent cols cols' last i filtered :
  (projection w byRecent cols last i filtered).*1
  = (projection w' byRecent cols' last i filtered).*1.
Proof.
  revert last i. induction filtered as [|c rest IH]; intros last i; [done|].
  cbn [projection]. rewrite !fmap_app, !fmap_cons. cbn [fst].
  rewrite (IH _ (i + 1)).
  by destruct (negb byRecent && _).
Qed.

Lemma getFilteredConfigs_inputs m1 m2 :
  cacheFresh m1 → cacheFresh m2 →
  configs m1 = configs m2 → sortByRecent m1 = sortByRecent m2 →
  searchQuery m1 = searchQuery m2 → fuzzyMode m1 = fuzzyMode m2 →
  (getFilteredConfigs m1).1 = (getFilteredConfigs m2).1.
Proof.
  intros Hf1 Hf2 Hc Hs Hq Hz.
  rewrite !getFilteredConfigs_eq, !getSortedConfigs_fresh by done. simpl.
  unfold sortOf. rewrite Hc, Hs, Hq.
  destruct (String.eqb _ _); [done|].
  apply filter_ext. intros c. by apply matchesSearch_fuzzyMode.
Qed.

(** C4, as the code has it. On a fresh cache the display rows (header or
    record index) and the index map are a function of the records, the
    sort mode, the query and the fuzzy flag alone. A second call of
    [updateTable] in the same operating-system state returns the same
    model, rows and index map included. The sort is memoized: after the
    first call the cache is valid and holds the sorted list, and
    [getSortedConfigs] then returns it and writes nothing, whatever the
    store holds. *)
Theorem projection_memoized (w : World) (m : model) :
  Columns (table m) ≠ [] →
  ∃ m',
    updateTable w m = Ok m'
    ∧ updateTable w m' = Ok m'
    ∧ cacheValid m' = true
    ∧ sortedCache m' = Some (getSortedConfigs m).1
    ∧ (∀ cs, getSortedConfigs (set_configs cs m')
             = ((getSortedConfigs m).1, set_configs cs m'))
    ∧ (∀ w2 m2,
         cacheFresh m → cacheFresh m2 →
         configs m2 = configs m → sortByRecent m2 = sortByRecent m →
         searchQuery m2 = searchQuery m → fuzzyMode m2 = fuzzyMode m →
         (project w2 m2).*1 = (project w m).*1
         ∧ sentinel <$> (project w2 m2).*1 = configIndices m').
Proof.
  intros Hcols.
  destruct (updateTable_result w m)
    as (m' & Hu & Hr & Hi & Hf & Hv & Hs & Hcs & Hcols' & Hsr & Hq & Hfz & _);
    [by left|].
  exists m'. split; [done|]. split.
  { rewrite updateTable_project by (left; by rewrite Hcols').
    assert (project w m' = project w m) as Hp.
    { unfold project. by rewrite Hf, Hsr, Hcols'. }
    rewrite Hp, Hf. simpl. rewrite <-Hr, <-Hi. by destruct m', table0. }
  split; [done|]. split; [done|]. split.
  { intros cs. apply getSortedConfigs_hit; by destruct m'. }
  intros w2 m2 Hf1 Hf2 Hc2 Hs2 Hq2 Hz2.
  assert ((project w2 m2).*1 = (project w m).*1) as Hk.
  { unfold project.
    rewrite (getFilteredConfigs_inputs m2 m) by done. rewrite Hs2.
    apply projection_kinds. }
  split; [done|]. by rewrite Hk, Hi.
Qed.

End CacheProps.

(** C4 as written fails. The calls below all have the same records, sort
    mode, query and fuzzy flag, and the cache stays valid. When the file is
    removed between two calls, the second call rebuilds the rows with the
    mark of a missing file; when the window is scrolled one column to the
    right, the rows are rebuilt for the new columns. So the rows are
    recomputed by every call, and they depend on more than the four
    inputs. *)
Lemma projection_recomputed_counterexample :
  ∃ m1 m2 m3 c3 w3,
    (m ← @adjustLayout refLib (newModel [entry "hosts" "" "/etc/hosts"]);
     @updateTable refLib world0 m) = Ok m1
    ∧ @updateTable refLib world1 m1 = Ok m2
    ∧ @Update refLib world0 m1 (KeyMsg "right") = Ok (m3, c3, w3)
    ∧ cacheValid m1 = true ∧ cacheValid m2 = true ∧ cacheValid m3 = true
    ∧ configs m2 = configs m1 ∧ sortByRecent m2 = sortByRecent m1
    ∧ searchQuery m2 = searchQuery m1 ∧ fuzzyMode m2 = fuzzyMode m1
    ∧ configs m3 = configs m1 ∧ sortByRecent m3 = sortByRecent m1
    ∧ searchQuery m3 = searchQuery m1 ∧ fuzzyMode m3 = fuzzyMode m1
    ∧ configIndices m1 = [-1; 0] ∧ configIndices m2 = [-1; 0]
    ∧ configIndices m3 = [-1; 0]
    ∧ Rows (table m1)
      = [[markFolder +:+ "General"; ""; ""]; ["hosts"; "General"; ""]]
    ∧ Rows (table m2)
      = [[markFolder +:+ "General"; ""; ""];
         [markMissing +:+ "hosts"; "General"; ""]]
    ∧ Rows (table m3)
      = [[markFolder +:+ "General"; ""; ""]; ["General"; ""; "/etc/hosts"]]
    ∧ Rows (table m1) ≠ Rows (table m2)
    ∧ Rows (table m1) ≠ Rows (table m3).
Proof.
  do 5 eexists.
  split; [vm_compute; reflexivity|].
  split; [vm_compute; reflexivity|].
  split; [vm_compute; reflexivity|].
  vm_compute. repeat split; done.
Qed.

(** ** The column layout *)

Lemma usedWidth_from a l :
  foldl (λ acc col, acc + Width col) a l = a + usedWidth l.
Proof.
  unfold usedWidth. revert a. induction l as [|x l IH]; intros a; simpl.
  { lia. }
  rewrite (IH (a + Width x)), (IH (0 + Width x)). lia.
Qed.

Lemma usedWidth_cons c l : usedWidth (c :: l) = Width c + usedWidth l.
Proof. unfold usedWidth at 1. simpl. apply usedWidth_from. Qed.

Lemma usedWidth_app l k : usedWidth (l ++ k) = usedWidth l + usedWidth k.
Proof.
  induction l as [|c l IH]; simpl; [done|].
  rewrite !usedWidth_cons, IH. lia.
Qed.

(** The first loop counts the greedy prefix. *)
Lemma fitColumns_spec cols avail total count :
  ∃ k : nat,
    fitColumns cols avail total count
    = (total + usedWidth (take k cols), count + Z.of_nat k)
    ∧ (k ≤ length cols)%nat
    ∧ (∀ j, (1 ≤ j ≤ k)%nat → total + usedWidth (take j cols) ≤ avail)
    ∧ ((k < length cols)%nat → avail < total + usedWidth (take (S k) cols)).
Proof.
  revert total count. induction cols as [|c cols IH]; intros total count.
  { exists 0%nat. simpl. rewrite !Z.add_0_r. repeat split; simpl; lia. }
  simpl. destruct (Z.leb_spec (total + Width c) avail) as [Hle|Hgt].
  - destruct (IH (total + Width c) (count + 1)) as (k & -> & Hk & Hpre & Hnext).
    exists (S k). simpl. rewrite usedWidth_cons. split; [f_equal; lia|].
    split; [lia|]. split.
    + intros [|j] Hj; [lia|]. simpl. rewrite usedWidth_cons.
      destruct j as [|j]; [simpl; unfold usedWidth; simpl; lia|].
      specialize (Hpre (S j)). simpl in *. lia.
    + intros Hlt. rewrite usedWidth_cons.
      specialize (Hnext ltac:(lia)). simpl in Hnext. lia.
  - exists 0%nat. simpl. rewrite !Z.add_0_r. split; [done|].
    split; [lia|]. split; [lia|]. intros _.
    rewrite usedWidth_cons. unfold usedWidth at 1. simpl. lia.
Qed.

Lemma fitColumns_greedy cols avail :
  ∃ k : nat,
    (fitColumns cols avail 0 0).2 = Z.of_nat k ∧ isGreedyPrefix cols avail k.
Proof.
  destruct (fitColumns_spec cols avail 0 0) as (k & -> & Hk & Hpre & Hnext).
  exists k. split; [done|]. split; [done|]. split.
  - intros j Hj. specialize (Hpre j Hj). lia.
  - intros Hlt. specialize (Hnext Hlt). lia.
Qed.

(** The window loop copies the columns from [i] up to [endCol]. *)
Lemma windowColumns_spec fuel allCols i endCol acc :
  0 ≤ i → (Z.to_nat (Z.min endCol (len allCols) - i) ≤ fuel)%nat →
  windowColumns fuel allCols i endCol acc
  = Ok (acc ++ take (Z.to_nat (endCol - i)) (drop (Z.to_nat i) allCols)).
Proof.
  revert i acc. induction fuel as [|fuel IH]; intros i acc Hi Hfuel.
  - simpl. f_equal.
    destruct (Z.lt_ge_cases i endCol).
    + rewrite drop_ge, take_nil, app_nil_r; [done|]. unfold len in *. lia.
    + replace (Z.to_nat (endCol - i)) with 0%nat by lia.
      by rewrite take_0, app_nil_r.
  - simpl. destruct (Z.ltb_spec i endCol) as [Hie|Hie]; simpl.
    2:{ replace (Z.to_nat (endCol - i)) with 0%nat by lia.
        by rewrite take_0, app_nil_r. }
    destruct (Z.ltb_spec i (len allCols)) as [Hil|Hil].
    2:{ rewrite drop_ge, take_nil, app_nil_r; [done|]. unfold len in *. lia. }
    destruct (lookup_lt_is_Some_2 allCols (Z.to_nat i)) as [c Hc];
      [unfold len in *; lia|].
    rewrite (index_lookup _ _ c) by done. cbn [mbind res_bind].
    rewrite IH by lia. f_equal. rewrite <-app_assoc. f_equal.
    replace (Z.to_nat (endCol - i)) with (S (Z.to_nat (endCol - (i + 1))))
      by lia.
    rewrite (drop_S _ _ _ Hc). simpl.
    by replace (Z.to_nat (i + 1)) with (S (Z.to_nat i)) by lia.
Qed.
Lemma withLeftover_length avail window :
  length (withLeftover avail window) = length window.
Proof.
  unfold withLeftover. destruct (_ >? 0); [|done].
  apply length_alter.
Qed.

Section LayoutProps.
Context `{GoLib}.

(** [adjustLayout] up to its calls of the widget, for a scroll offset that
    is not negative and a column list that is not empty: the greedy
    prefix, the declared columns as it leaves them, the clamped offset and
    the window handed to [SetColumns]. *)
Lemma adjustLayout_eq m :
  0 ≤ scrollOffset m → allColumns m ≠ [] →
  ∃ k : nat,
    isGreedyPrefix (allColumns m) (width m - 6) k
    ∧ let avail := width m - 6 in
      let count := if decide (k = 0%nat) then 1%nat else k in
      let start :=
        Z.to_nat (Z.min (scrollOffset m)
                    (len (allColumns m) - Z.of_nat count)) in
      let all' :=
        if decide (k = 0%nat)
        then match allColumns m with
             | c :: rest => {| Title := Title c; Width := avail |} :: rest
             | [] => []
             end
        else allColumns m in
      layoutCount (allColumns m) avail = Z.of_nat count
      ∧ (start + count ≤ length (allColumns m))%nat
      ∧ length all' = length (allColumns m)
      ∧ length (withLeftover avail (take count (drop start all'))) = count
      ∧ adjustLayout m
        = (t ← SetColumns (withLeftover avail (take count (drop start all')))
                 (table m);
           t ← SetHeight (Z.max 5 (height m - 6)) t;
           Ok (set_maxCols (len all')
                 (set_table t
                    (set_scrollOffset (Z.of_nat start)
                       (set_allColumns all' m))))).
Proof.
  intros Hso Hne.
  destruct (fitColumns_greedy (allColumns m) (width m - 6))
    as (k & Hfit & Hg).
  exists k. split; [done|]. cbv zeta. unfold adjustLayout, layoutCount.
  destruct (fitColumns (allColumns m) (width m - 6) 0 0) as [t n].
  simpl in Hfit. subst n. cbn [snd].
  pose proof Hg as (Hk & _ & _).
  destruct (allColumns m) as [|c0 rest] eqn:Eall; [done|]. clear Hne.
  set (avail := width m - 6).
  set (count := if decide (k = 0%nat) then 1%nat else k).
  set (all' := if decide (k = 0%nat)
               then {| Title := Title c0; Width := avail |} :: rest
               else c0 :: rest).
  assert (length all' = S (length rest)) as Hlen'
    by (unfold all'; by case_decide).
  assert (1 ≤ count ≤ S (length rest))%nat as Hcount
    by (unfold count; case_decide; simpl in *; lia).
  set (start := Z.to_nat (Z.min (scrollOffset m)
                            (len (c0 :: rest) - Z.of_nat count))).
  assert (start + count ≤ S (length rest))%nat as Hstart
    by (unfold start, len; simpl; lia).
  set (window := take count (drop start all')).
  assert (length window = count) as Hwlen.
  { unfold window. rewrite length_take, length_drop. lia. }
  split.
  { unfold count. destruct (Z.eqb_spec (Z.of_nat k) 0); case_decide; lia. }
  split; [simpl; lia|]. split; [done|].
  split; [by rewrite withLeftover_length|].
  assert (Z.max 5 (height m - 6)
          = if height m - 6 <? 5 then 5 else height m - 6) as ->
    by (destruct (Z.ltb_spec (height m - 6) 5); lia).
  (* the zero-fit branch and the other one meet here *)
  assert (∀ m1 : model,
    allColumns m1 = all' → scrollOffset m1 = scrollOffset m →
    table m1 = table m →
    set_allColumns all' m = m1 →
    (let startCol := scrollOffset m1 in
     let endCol := startCol + Z.of_nat count in
     let '(startCol, endCol, m2) :=
       if endCol >? len (allColumns m1) then
         let endCol := len (allColumns m1) in
         let startCol := endCol - Z.of_nat count in
         let startCol := if startCol <? 0 then 0 else startCol in
         (startCol, endCol, set_scrollOffset startCol m1)
       else (startCol, endCol, m1) in
     visibleColumns ←
       windowColumns (S (length (allColumns m2))) (allColumns m2)
         startCol endCol [];
     let visibleColumns :=
       if len visibleColumns >? 0 then
         let extraWidth := avail - usedWidth visibleColumns in
         if extraWidth >? 0 then
           alter (addWidth extraWidth) (length visibleColumns - 1)%nat
             visibleColumns
         else visibleColumns
       else visibleColumns in
     t ← SetColumns visibleColumns (table m2);
     t ← SetHeight (if height m - 6 <? 5 then 5 else height m - 6) t;
     Ok (set_maxCols (len (allColumns m2)) (set_table t m2)))
    = (t ← SetColumns (withLeftover avail window) (table m);
       t ← SetHeight (if height m - 6 <? 5 then 5 else height m - 6) t;
       Ok (set_maxCols (len all')
             (set_table t
                (set_scrollOffset (Z.of_nat start)
                   (set_allColumns all' m))))))
    as Hcommon.
  { intros m1 Hall1 Hso1 Ht1 Hm1. cbv zeta.
    assert ((if len window >? 0
             then if avail - usedWidth window >? 0
                  then alter (addWidth (avail - usedWidth window))
                         (length window - 1)%nat window
                  else window
             else window) = withLeftover avail window) as Hleft.
    { unfold withLeftover.
      destruct (Z.gtb_spec (len window) 0); [done|].
      unfold len in *. lia. }
    assert (allColumns (set_scrollOffset (Z.of_nat start) m1) = all') as Hall2
      by (by destruct m1).
    rewrite !Hall1, Hso1.
    destruct (Z.gtb_spec (scrollOffset m + Z.of_nat count) (len all'))
      as [Hgt|Hle].
    - unfold len in Hgt. rewrite Hlen' in Hgt.
      assert ((if len all' - Z.of_nat count <? 0 then 0
               else len all' - Z.of_nat count) = Z.of_nat start)
        as ->.
      { unfold start, len. rewrite Hlen'. simpl length.
        destruct (Z.ltb_spec (Z.of_nat (S (length rest)) - Z.of_nat count) 0);
          lia. }
      rewrite !Hall2.
      rewrite windowColumns_spec by (unfold len; lia).
      cbn [mbind res_bind app].
      replace (Z.to_nat (len all' - Z.of_nat start)) with count.
      2:{ unfold len. rewrite Hlen'. unfold start, len. simpl length. lia. }
      rewrite Nat2Z.id. fold window. rewrite Hleft.
      assert (table (set_scrollOffset (Z.of_nat start) m1) = table m) as ->
        by (by rewrite <-Ht1).
      by rewrite Hm1.
    - unfold len in Hle. rewrite Hlen' in Hle.
      assert (scrollOffset m = Z.of_nat start) as Es.
      { unfold start, len. simpl length. lia. }
      rewrite Es, !Hall1.
      rewrite windowColumns_spec by (unfold len; lia).
      cbn [mbind res_bind app].
      replace (Z.to_nat (Z.of_nat start + Z.of_nat count - Z.of_nat start))
        with count by lia.
      rewrite Nat2Z.id. fold window. rewrite Hleft, Ht1, Hm1.
      assert (set_scrollOffset (Z.of_nat start) m1 = m1) as ->; [|done].
      rewrite <-Es, <-Hso1. by destruct m1. }
  destruct (decide (k = 0%nat)) as [->|Hk0].
  - simpl (Z.of_nat 0 =? 0). cbv iota.
    change (index (c0 :: rest) 0) with (Ok c0). cbn [mbind res_bind].
    apply (Hcommon (set_allColumns (<[0%nat:=
                {| Title := Title c0; Width := avail |}]> (c0 :: rest)) m));
      by destruct m.
  - destruct (Z.eqb_spec (Z.of_nat k) 0) as [?|_]; [lia|].
    cbn [mbind res_bind].
    apply (Hcommon m); [by rewrite Eall|done|done|].
    unfold all'. rewrite <-Eall. by destruct m.
Qed.

(** What [adjustLayout] computes when the widget accepts the window: no
    row of the table has more cells than the window has columns. *)
Lemma adjustLayout_result m :
  0 ≤ scrollOffset m → allColumns m ≠ [] → rowsFit m →
  ∃ (k : nat) m',
    adjustLayout m = Ok m'
    ∧ isGreedyPrefix (allColumns m) (width m - 6) k
    ∧ let avail := width m - 6 in
      let count := if decide (k = 0%nat) then 1%nat else k in
      let start :=
        Z.to_nat (Z.min (scrollOffset m)
                    (len (allColumns m) - Z.of_nat count)) in
      allColumns m'
      = (if decide (k = 0%nat)
         then match allColumns m with
              | c :: rest => {| Title := Title c; Width := avail |} :: rest
              | [] => []
              end
         else allColumns m)
      ∧ scrollOffset m' = Z.of_nat start
      ∧ Columns (table m')
        = withLeftover avail (take count (drop start (allColumns m')))
      ∧ length (Columns (table m')) = count
      ∧ (start + count ≤ length (allColumns m))%nat
      ∧ maxCols m' = len (allColumns m)
      ∧ Height (table m') = Z.max 5 (height m - 6)
      ∧ Rows (table m') = Rows (table m)
      ∧ Cursor (table m') = Cursor (table m)
      ∧ configs m' = configs m ∧ width m' = width m
      ∧ height m' = height m ∧ mode m' = mode m
      ∧ configIndices m' = configIndices m
      ∧ sortedCache m' = sortedCache m ∧ cacheValid m' = cacheValid m
      ∧ sortByRecent m' = sortByRecent m ∧ searchQuery m' = searchQuery m
      ∧ fuzzyMode m' = fuzzyMode m.
Proof.
  intros Hso Hne Hfit.
  destruct (adjustLayout_eq m Hso Hne) as (k & Hg & Heq).
  cbv zeta in Heq. destruct Heq as (Hcount & Hstart & Hlen' & Hwlen & Heq).
  exists k. rewrite Heq. unfold SetColumns, SetHeight.
  rewrite UpdateViewport_fit; cbn [mbind res_bind].
  2:{ simpl. intros row Hrow. rewrite Hwlen.
      specialize (Hfit row Hrow). unfold len in Hfit. lia. }
  rewrite UpdateViewport_fit; cbn [mbind res_bind].
  2:{ simpl. intros row Hrow. rewrite Hwlen.
      specialize (Hfit row Hrow). unfold len in Hfit. lia. }
  eexists. split; [reflexivity|]. split; [done|]. cbv zeta. simpl.
  unfold len. rewrite Hlen'. repeat split; done.
Qed.

(** The widget does not take the window when a row it renders has more
    cells than the window has columns: [adjustLayout] panics in
    [SetColumns]. *)
Lemma adjustLayout_panics_rows m row :
  0 ≤ scrollOffset m → allColumns m ≠ [] →
  (∀ cols, row ∈ table_window (withColumns cols (table m))) →
  layoutCount (allColumns m) (width m - 6) < len row →
  adjustLayout m = Panic.
Proof.
  intros Hso Hne Hrow Hlen.
  destruct (adjustLayout_eq m Hso Hne) as (k & Hg & Heq).
  cbv zeta in Heq. destruct Heq as (Hcount & Hstart & Hlen' & Hwlen & Heq).
  rewrite Heq. unfold SetColumns.
  rewrite (UpdateViewport_panics _ row); [done|apply Hrow|].
  simpl. rewrite Hwlen. unfold len in Hlen. lia.
Qed.

End LayoutProps.
Section LayoutPanics.
Context `{GoLib}.


(** Outside these conditions [adjustLayout] does not return: with no
    declared column [m.allColumns[0]] is out of range, and with a negative
    scroll offset the window loop reads [m.allColumns[startCol]]. *)
Lemma adjustLayout_panics_empty m : allColumns m = [] → adjustLayout m = Panic.
Proof. intros Hall. unfold adjustLayout. by rewrite Hall. Qed.

Lemma adjustLayout_panics_negative m :
  scrollOffset m < 0 → allColumns m ≠ [] → adjustLayout m = Panic.
Proof.
  intros Hso Hne. unfold adjustLayout.
  destruct (fitColumns_greedy (allColumns m) (width m - 6))
    as (k & Hfit & Hk & _).
  destruct (fitColumns (allColumns m) (width m - 6) 0 0) as [t n].
  simpl in Hfit. subst n.
  destruct (allColumns m) as [|c0 rest] eqn:Eall; [done|]. simpl in Hk.
  assert (∀ (count : nat) (m1 : model),
    (1 ≤ count ≤ S (length rest))%nat →
    length (allColumns m1) = S (length rest) →
    scrollOffset m1 = scrollOffset m →
    (let startCol := scrollOffset m1 in
     let endCol := startCol + Z.of_nat count in
     let '(startCol, endCol, m2) :=
       if endCol >? len (allColumns m1) then
         let endCol := len (allColumns m1) in
         let startCol := endCol - Z.of_nat count in
         let startCol := if startCol <? 0 then 0 else startCol in
         (startCol, endCol, set_scrollOffset startCol m1)
       else (startCol, endCol, m1) in
     visibleColumns ←
       windowColumns (S (length (allColumns m2))) (allColumns m2)
         startCol endCol [];
     let visibleColumns :=
       if len visibleColumns >? 0 then
         let extraWidth := width m - 6 - usedWidth visibleColumns in
         if extraWidth >? 0 then
           alter (addWidth extraWidth) (length visibleColumns - 1)%nat
             visibleColumns
         else visibleColumns
       else visibleColumns in
     t ← SetColumns visibleColumns (table m2);
     t ← SetHeight (if height m - 6 <? 5 then 5 else height m - 6) t;
     Ok (set_maxCols (len (allColumns m2)) (set_table t m2))) = Panic)
    as Hcommon.
  { intros count m1 Hcount Hlen Hso1. cbv zeta. rewrite Hso1.
    unfold len. rewrite Hlen.
    destruct (Z.gtb_spec (scrollOffset m + Z.of_nat count)
                (Z.of_nat (S (length rest)))); [lia|].
    rewrite Hlen. cbn [windowColumns].
    destruct (Z.ltb_spec (scrollOffset m) (scrollOffset m + Z.of_nat count));
      [|lia].
    unfold len. rewrite Hlen.
    destruct (Z.ltb_spec (scrollOffset m) (Z.of_nat (S (length rest))));
      [|lia].
    cbn [andb]. unfold index.
    destruct (Z.leb_spec 0 (scrollOffset m)); [lia|]. reflexivity. }
  destruct (Z.eqb_spec (Z.of_nat k) 0) as [Hk0|Hk0].
  - change (index (c0 :: rest) 0) with (Ok c0). cbn [mbind res_bind].
    apply (Hcommon 1%nat); [lia|by destruct m|by destruct m].
  - cbn [mbind res_bind]. apply (Hcommon k); [lia|by rewrite Eall|done].
Qed.

End LayoutPanics.

(** ** The delete confirmation *)

Lemma remove_at_length {A} (l : list A) i :
  0 ≤ i < len l → len (remove_at i l) = len l - 1.
Proof.
  intros Hi. unfold remove_at, len in *.
  rewrite length_app, length_take, length_drop. lia.
Qed.

Lemma findEqual_range cs sc i j c :
  findEqual cs sc i = Some (j, c) →
  i ≤ j < i + len cs ∧ cs !! Z.to_nat (j - i) = Some c.
Proof.
  revert i. induction cs as [|x cs IH]; intros i; simpl; [done|].
  destruct (Equals x sc).
  - intros [= <- <-]. rewrite Z.sub_diag. unfold len. simpl. split; [lia|done].
  - intros Hf. apply IH in Hf as [Hr Hl]. unfold len in *. simpl length.
    split; [lia|].
    replace (Z.to_nat (j - i)) with (S (Z.to_nat (j - (i + 1)))) by lia.
    done.
Qed.

Section DeleteProps.
Context `{GoLib}.

Lemma getFilteredConfigs_configs m : configs (getFilteredConfigs m).2 = configs m.
Proof.
  rewrite getFilteredConfigs_frame. by destruct (getSortedConfigs_frame m).
Qed.

(** The [d] key enters the confirmation only with an index into the
    store. *)
Lemma updateNormal_delete_valid w m m' c w' :
  updateNormal_delete w m = Ok (m', c, w') →
  mode m = ModeNormal → mode m' = ModeConfirmDelete →
  0 ≤ deleteIndex m' < len (configs m') ∧ configs m' = configs m.
Proof.
  unfold updateNormal_delete, getOriginalIndexByDisplayIndex.
  intros Hu Hmode Hmode'.
  destruct (len (configs m) >? 0); [|simplify_eq; congruence].
  destruct ((Cursor (table m) <? 0)
            || (Cursor (table m) >=? len (configIndices m))).
  { simpl in Hu. simplify_eq. congruence. }
  destruct (index (configIndices m) (Cursor (table m))) as [ci|];
    [|done]. cbn [mbind res_bind] in Hu.
  destruct (ci =? -1). { simpl in Hu. simplify_eq. congruence. }
  pose proof (getFilteredConfigs_configs m) as Hcs.
  pose proof (getFilteredConfigs_frame m) as Hfr. simpl in Hfr.
  pose proof (getSortedConfigs_frame m) as Hf. simpl in Hf.
  rewrite <-Hfr in Hf. destruct Hf as (_&_&Hmo&_).
  destruct (getFilteredConfigs m) as [f m1]. simpl in *.
  destruct (ci >=? len f). { simpl in Hu. simplify_eq. congruence. }
  destruct (index f ci) as [sc|]; [|done]. cbn [mbind res_bind] in Hu.
  destruct (findEqual (configs m1) sc 0) as [[j x]|] eqn:Ef; simpl in Hu.
  - apply findEqual_range in Ef as [Hr Hl].
    destruct (Z.eqb_spec j (-1)); [lia|].
    destruct (index (configs m1) j); [|done]. simpl in Hu. simplify_eq.
    destruct ((getSortedConfigs m).2); simpl in *. split; [lia|done].
  - simplify_eq. congruence.
Qed.

(** C8, as the code has it. With a valid delete index: [y] or [Y]
    removes the selected record, and when the save succeeds the registry
    file holds the shrunk store and the mode is Normal; [n], [N] and [esc]
    return to Normal with the store as it was; every other key changes
    nothing, the mode stays ConfirmDelete. The [d] key enters the
    confirmation only with a valid index and leaves the store alone. *)
Theorem delete_confirm_keys (w : World) (m : model) (key : string) :
  0 ≤ deleteIndex m < len (configs m) →
  Columns (table m) ≠ [] →
  mode m = ModeConfirmDelete →
  Update w m (KeyMsg key) = updateDeleteConfirm w m key
  ∧ (key_in key ["y"; "Y"] = true → save_fails w = false →
     ∃ m' c,
       updateDeleteConfirm w m key
       = Ok (m', showStatus (StDeleted (Name c)), set_disk (configs m') w)
       ∧ configs m !! Z.to_nat (deleteIndex m) = Some c
       ∧ configs m' = remove_at (deleteIndex m) (configs m)
       ∧ len (configs m') = len (configs m) - 1
       ∧ mode m' = ModeNormal ∧ deleteIndex m' = -1)
  ∧ (key_in key ["y"; "Y"] = true → save_fails w = true →
     ∃ m',
       updateDeleteConfirm w m key
       = Ok (m', showStatus (StFailedToSave ErrSave), w)
       ∧ configs m' = remove_at (deleteIndex m) (configs m)
       ∧ mode m' = ModeNormal)
  ∧ (key_in key ["y"; "Y"] = false → key_in key ["n"; "N"; "esc"] = true →
     updateDeleteConfirm w m key
     = Ok (set_deleteIndex (-1) (set_mode ModeNormal m),
           showStatus StDeletionCancelled, w))
  ∧ (key_in key ["y"; "Y"] = false → key_in key ["n"; "N"; "esc"] = false →
     updateDeleteConfirm w m key = Ok (m, NoCmd, w))
  ∧ (∀ m0 w0 m1 c1 w1,
       updateNormal w0 m0 "d" = Ok (m1, c1, w1) → mode m0 = ModeNormal →
       mode m1 = ModeConfirmDelete →
       0 ≤ deleteIndex m1 < len (configs m1) ∧ configs m1 = configs m0).
Proof.
  intros Hdi Hcols Hmode. split; [unfold Update; by rewrite Hmode|].
  assert (∃ c, configs m !! Z.to_nat (deleteIndex m) = Some c) as [c Hc].
  { apply lookup_lt_is_Some_2. unfold len in *. lia. }
  assert ((deleteIndex m >=? 0) && (deleteIndex m <? len (configs m)) = true)
    as Hrange.
  { apply andb_true_iff. split; [apply Z.geb_le|apply Z.ltb_lt]; lia. }
  split; [|split; [|split; [|split]]].
  - intros Hy Hs. unfold updateDeleteConfirm.
    rewrite Hy, Hrange, (index_lookup _ _ c) by (done || lia).
    cbn [mbind res_bind]. unfold Save.
    assert (save_fails w = false) as Hs' by done.
    replace (save_fails w) with false. cbn [negb].
    set (m1 := set_cacheValid false
                 (set_configs (remove_at (deleteIndex m) (configs m)) m)).
    destruct (updateTable_result (set_disk (remove_at (deleteIndex m) (configs m)) w) m1)
      as (m2 & Hu & _ & _ & _ & _ & _ & Hcs & _);
      [left; by destruct m|].
    assert (configs (set_configs (remove_at (deleteIndex m) (configs m)) m)
            = remove_at (deleteIndex m) (configs m)) as Ecs by (by destruct m).
    rewrite Ecs. fold m1. rewrite Hu. cbn [mbind res_bind].
    eexists _, c. split.
    { do 2 f_equal. f_equal. destruct m2; simpl in *. rewrite Hcs.
      by destruct m. }
    split; [done|].
    assert (configs m2 = remove_at (deleteIndex m) (configs m)) as Ecs2
      by (rewrite Hcs; by destruct m).
    destruct m2; simpl in *. subst.
    split; [done|]. split; [by apply remove_at_length|done].
  - intros Hy Hs. unfold updateDeleteConfirm.
    rewrite Hy, Hrange, (index_lookup _ _ c) by (done || lia).
    cbn [mbind res_bind]. unfold Save. rewrite Hs. cbn [negb].
    eexists. split; [reflexivity|]. by destruct m.
  - intros Hy Hn. unfold updateDeleteConfirm. by rewrite Hy, Hn.
  - intros Hy Hn. unfold updateDeleteConfirm. by rewrite Hy, Hn.
  - intros m0 w0 m1 c1 w1 Hu Hm0 Hm1.
    by apply (updateNormal_delete_valid w0 m0 m1 c1 w1).
Qed.

End DeleteProps.

(** C8 as written fails on two counts: [Y], a key other than
    [y], removes the record; and a key that is neither a yes nor a no,
    here [x], leaves the mode at ConfirmDelete. *)
Lemma delete_other_keys_counterexample :
  ∃ m0 m1 m2 mx mY c1 c2 cx cY w1 w2 wx wY,
    (m ← @adjustLayout refLib (newModel [entry "hosts" "" "/etc/hosts"]);
     @updateTable refLib world0 m) = Ok m0
    ∧ @Update refLib world0 m0 (KeyMsg "j") = Ok (m1, c1, w1)
    ∧ @Update refLib w1 m1 (KeyMsg "d") = Ok (m2, c2, w2)
    ∧ mode m2 = ModeConfirmDelete ∧ deleteIndex m2 = 0
    ∧ length (configs m2) = 1%nat
    ∧ @Update refLib w2 m2 (KeyMsg "x") = Ok (mx, cx, wx)
    ∧ mode mx = ModeConfirmDelete ∧ mx = m2
    ∧ @Update refLib w2 m2 (KeyMsg "Y") = Ok (mY, cY, wY)
    ∧ configs mY = [] ∧ disk wY = [] ∧ mode mY = ModeNormal.
Proof.
  do 13 eexists.
  split; [vm_compute; reflexivity|].
  split; [vm_compute; reflexivity|].
  split; [vm_compute; reflexivity|].
  split; [reflexivity|]. split; [reflexivity|]. split; [reflexivity|].
  split; [vm_compute; reflexivity|].
  split; [reflexivity|]. split; [reflexivity|].
  split; [vm_compute; reflexivity|].
  repeat split; reflexivity.
Qed.

(** ** The duplicate check of the store *)

Lemma fmap_alter_preserved {A B} (g : A → B) (f : A → A) i (l : list A) :
  (∀ x, g (f x) = g x) → g <$> alter f i l = g <$> l.
Proof.
  intros Hg. revert i. induction l as [|x l IH]; intros [|i]; csimpl; try done.
  - by rewrite Hg.
  - by rewrite IH.
Qed.

Lemma fmap_alter_set_Path p i (cs : list ConfigEntry) :
  Path <$> alter (set_Path p) i cs
  = if decide (i < length cs)%nat then <[i := p]> (Path <$> cs)
    else Path <$> cs.
Proof.
  revert i. induction cs as [|c cs IH]; intros [|i]; csimpl; try done.
  rewrite IH. repeat case_decide; done || lia.
Qed.

Lemma NoDup_insert_fresh {A} (l : list A) i x :
  NoDup l → x ∉ l → NoDup (<[i := x]> l).
Proof.
  intros Hnd. revert i. induction Hnd as [|y l Hy Hnd IH]; intros i Hx.
  { constructor. }
  apply not_elem_of_cons in Hx as [Hxy Hx].
  destruct i as [|i]; simpl.
  - by constructor.
  - constructor; [|by apply IH].
    intros Hin. apply list_elem_of_lookup in Hin as [j Hj].
    apply list_lookup_insert_Some in Hj as [(_ & ? & _)|[_ Hj]]; [done|].
    apply Hy. by eapply list_elem_of_lookup_2.
Qed.

Section StoreLemmas.
Context `{GoLib}.

Lemma FindDuplicates_None cs p :
  FindDuplicates cs p = None ↔ p ∉ Path <$> cs.
Proof.
  induction cs as [|c cs IH]; simpl.
  { split; [intros _; apply not_elem_of_nil|done]. }
  destruct (String.eqb_spec (Path c) p) as [->|Hne].
  - split; [done|]. intros []. by left.
  - rewrite IH, not_elem_of_cons. split; [by intros ?|by intros [_ ?]].
Qed.

Lemma FindDuplicates_Some cs p d :
  FindDuplicates cs p = Some d → d ∈ cs ∧ Path d = p.
Proof.
  induction cs as [|c cs IH]; simpl; [done|].
  destruct (String.eqb_spec (Path c) p) as [Heq|Hne].
  - intros [= ->]. split; [by left|done].
  - intros Hf. destruct (IH Hf). split; [by right|done].
Qed.

(** With distinct paths, the record found for a path is the one that has
    it. *)
Lemma FindDuplicates_unique cs p j c :
  NoDup (Path <$> cs) → cs !! j = Some c → Path c = p →
  FindDuplicates cs p = Some c.
Proof.
  intros Hnd Hj Hp.
  destruct (FindDuplicates cs p) as [d|] eqn:Ef.
  - apply FindDuplicates_Some in Ef as [Hin Hd].
    apply list_elem_of_lookup in Hin as [k Hk]. f_equal.
    assert (k = j) as ->; [|congruence].
    eapply NoDup_lookup; [exact Hnd| |]; rewrite list_lookup_fmap.
    + by rewrite Hk.
    + rewrite Hj. simpl. congruence.
  - apply FindDuplicates_None in Ef. exfalso. apply Ef.
    apply list_elem_of_fmap. exists c. split; [done|].
    by eapply list_elem_of_lookup_2.
Qed.

End StoreLemmas.

Section StoreProps.
Context `{GoLib}.

Lemma storeField_fields f m :
  configs (storeField f m) = alter f (Z.to_nat (editRow m)) (configs m)
  ∧ table (storeField f m) = table m
  ∧ editRow (storeField f m) = editRow m
  ∧ sortByRecent (storeField f m) = sortByRecent m
  ∧ mode (storeField f m) = mode m.
Proof. by destruct m. Qed.

Lemma storeField_same_paths f m :
  (∀ c, Path (f c) = Path c) →
  Path <$> configs (storeField f m) = Path <$> configs m.
Proof.
  intros Hf. destruct (storeField_fields f m) as [-> _].
  by apply fmap_alter_preserved.
Qed.

(** A path that passes the check can be stored: the paths stay
    distinct. *)
Lemma checkDuplicate_None m cur p :
  configs m !! Z.to_nat (editRow m) = Some cur →
  NoDup (Path <$> configs m) →
  checkDuplicate m cur p = None →
  NoDup (Path <$> configs (storeField (set_Path p) m)).
Proof.
  intros Hcur Hnd Hck.
  destruct (storeField_fields (set_Path p) m) as [-> _].
  rewrite fmap_alter_set_Path, decide_True by (by eapply lookup_lt_Some).
  assert (Path cur = p → NoDup (<[Z.to_nat (editRow m) := p]> (Path <$> configs m)))
    as Hsame.
  { intros Hp. rewrite list_insert_id; [done|].
    by rewrite list_lookup_fmap, Hcur, <-Hp. }
  unfold checkDuplicate in Hck.
  destruct (bool_decide (mode m = ModeAdd) || negb (String.eqb (Path cur) p))
    eqn:Hguard.
  - destruct (FindDuplicates (configs m) p) as [dup|] eqn:Ef.
    + destruct (Equals dup cur) eqn:Ee; [|done].
      apply FindDuplicates_Some in Ef as [_ Hd].
      apply Equals_spec in Ee as (_ & Hp & _). apply Hsame. congruence.
    + apply FindDuplicates_None in Ef. by apply NoDup_insert_fresh.
  - apply orb_false_iff in Hguard as [_ Hp].
    apply negb_false_iff, String.eqb_eq in Hp. by apply Hsame.
Qed.

(** A path that another record has does not pass the check. *)
Lemma checkDuplicate_other m cur other j p :
  NoDup (Path <$> configs m) →
  configs m !! Z.to_nat (editRow m) = Some cur →
  configs m !! j = Some other → j ≠ Z.to_nat (editRow m) → Path other = p →
  checkDuplicate m cur p = Some (ErrDuplicate (Name other)).
Proof.
  intros Hnd Hcur Hj Hne Hp.
  assert (Path cur ≠ p) as Hcp.
  { intros E. apply Hne. eapply NoDup_lookup; [exact Hnd| |];
      rewrite list_lookup_fmap; [by rewrite Hj|rewrite Hcur; simpl; congruence]. }
  unfold checkDuplicate.
  rewrite (proj2 (String.eqb_neq _ _) Hcp), orb_true_r.
  rewrite (FindDuplicates_unique _ _ j other) by done.
  destruct (Equals other cur) eqn:Ee; [|done].
  apply Equals_spec in Ee as (_ & E & _). congruence.
Qed.

Lemma saveEdit_switch_inr w m cur value m1 :
  configs m !! Z.to_nat (editRow m) = Some cur →
  NoDup (Path <$> configs m) →
  saveEdit_switch w m cur value = inr m1 →
  NoDup (Path <$> configs m1)
  ∧ length (configs m1) = length (configs m)
  ∧ table m1 = table m ∧ sortByRecent m1 = sortByRecent m.
Proof.
  intros Hcur Hnd. unfold saveEdit_switch.
  assert (∀ f, (∀ c, Path (f c) = Path c) →
    NoDup (Path <$> configs (storeField f m))
    ∧ length (configs (storeField f m)) = length (configs m)
    ∧ table (storeField f m) = table m
    ∧ sortByRecent (storeField f m) = sortByRecent m) as Hkeep.
  { intros f Hf. rewrite storeField_same_paths by done.
    destruct (storeField_fields f m) as (-> & -> & _ & -> & _).
    by rewrite length_alter. }
  destruct (editCol m =? 0).
  { destruct (String.eqb value ""); [done|]. intros [= <-]. by apply Hkeep. }
  destruct (editCol m =? 1). { intros [= <-]. by apply Hkeep. }
  destruct (editCol m =? 2). { intros [= <-]. by apply Hkeep. }
  destruct (editCol m =? 3).
  { destruct (String.eqb value ""); [done|].
    destruct (checkDuplicate m cur (ExpandPath w value)) eqn:Hck; [done|].
    pose proof (checkDuplicate_None m cur _ Hcur Hnd Hck) as Hnd1.
    set (m0 := storeField (set_Path (ExpandPath w value)) m) in *.
    destruct (storeField_fields (set_Path (ExpandPath w value)) m)
      as (Hc0 & Ht0 & He0 & Hs0 & _). fold m0 in Hc0, Ht0, He0, Hs0.
    assert (length (configs m0) = length (configs m)) as Hl0
      by (by rewrite Hc0, length_alter).
    destruct (_ || _); intros [= <-]; [|done].
    rewrite storeField_same_paths by done.
    destruct (storeField_fields (set_Type (DetectFileType (ExpandPath w value)))
                m0) as (-> & -> & _ & -> & _).
    by rewrite length_alter. }
  destruct (editCol m =? 4); intros [= <-]; [by apply Hkeep|done].
Qed.

Lemma projection_wellFormed w byRecent cols last i filtered :
  0 ≤ i →
  wellFormedIndices
    (sentinel <$> (projection w byRecent cols last i filtered).*1).
Proof.
  unfold wellFormedIndices. revert last i.
  induction filtered as [|c rest IH]; intros last i Hi; [constructor|].
  cbn [projection]. rewrite !fmap_app, !fmap_cons. cbn [fst sentinel].
  apply Forall_app. split.
  - destruct (negb byRecent && _); [|constructor].
    constructor; [by left|constructor].
  - constructor; [by right|]. apply IH. lia.
Qed.

(** On a well-formed index map the scan of [findConfigDisplayIndex]
    returns. *)
Lemma findConfigDisplayIndex_loop_total m f R ci d :
  getFilteredConfigs m = (f, m) → wellFormedIndices ci →
  ∃ i, findConfigDisplayIndex_loop R ci d m = Ok (i, m).
Proof.
  intros Hf Hwf. revert d. induction Hwf as [|z ci Hz Hwf IH]; intros d.
  { by eexists. }
  simpl. destruct (Z.eqb_spec z (-1)) as [->|Hne]; [apply IH|].
  destruct Hz as [?|Hz]; [done|]. rewrite Hf.
  destruct (Z.ltb_spec z (len f)) as [Hlt|?]; [|apply IH].
  destruct (lookup_lt_is_Some_2 f (Z.to_nat z)) as [c Hc];
    [unfold len in *; lia|].
  rewrite (index_lookup _ _ c) by done. cbn [mbind res_bind].
  destruct (Equals c R); [by eexists|apply IH].
Qed.

(** [addNewConfig] appends the placeholder record, whatever the store
    holds. *)
Lemma addNewConfig_appends w m :
  Columns (table m) ≠ [] →
  ∃ cmd m',
    addNewConfig w m = Ok (cmd, m')
    ∧ configs m' = configs m ++ [newConfig]
    ∧ mode m' = ModeAdd ∧ editRow m' = len (configs m).
Proof.
  intros Hcols. unfold addNewConfig.
  set (m1 := loadEditField _).
  assert (configs m1 = configs m ++ [newConfig] ∧ table m1 = table m
          ∧ mode m1 = ModeAdd ∧ editRow m1 = len (configs m)) as (Hc1&Ht1&Hm1&He1).
  { unfold m1, loadEditField. destruct m; simpl.
    assert (len (configs0 ++ [newConfig]) - 1 = len configs0) as ->
      by (unfold len; rewrite length_app; simpl; lia).
    destruct (_ || _); [done|]. simpl.
    destruct (_ !! _); done. }
  destruct (updateTable_result w m1)
    as (m2 & -> & Hr & Hi & Hf & _ & _ & Hc2 & Hcol & _ & _ & _ & Hm2 & _ & _
        & He2);
    [left; by rewrite Ht1|].
  cbn [mbind res_bind].
  destruct (findConfigDisplayIndex_loop_total m2 _ newConfig
              (configIndices m2) 0 Hf) as [i Hl].
  { rewrite Hi. by apply projection_wellFormed. }
  unfold findConfigDisplayIndex. rewrite Hl. cbn [mbind res_bind].
  rewrite SetCursor_fit.
  2:{ rewrite Hr, Hcol. intros row Hrow.
      by rewrite (project_rows_fit _ _ _ Hrow). }
  destruct (i =? -1); cbn [mbind res_bind]; (eexists _, _;
    split; [reflexivity|]); destruct m2; simpl in *; repeat split;
    congruence.
Qed.

End StoreProps.

Section StoreClaims.
Context `{GoLib}.

Lemma saveEdit_switch_dup w m cur other j :
  NoDup (Path <$> configs m) →
  editCol m = 3 → TrimSpace (textInput m) ≠ "" →
  configs m !! Z.to_nat (editRow m) = Some cur →
  configs m !! j = Some other → j ≠ Z.to_nat (editRow m) →
  Path other = ExpandPath w (TrimSpace (textInput m)) →
  saveEdit_switch w m cur (TrimSpace (textInput m))
  = inl (ErrDuplicate (Name other)).
Proof.
  intros Hnd Hcol Hval Hcur Hj Hne Hp. unfold saveEdit_switch.
  rewrite Hcol. simpl.
  rewrite (proj2 (String.eqb_neq _ _) Hval).
  by rewrite (checkDuplicate_other m cur other j _ Hnd Hcur Hj Hne Hp).
Qed.

(** C1, as the code has it. On a store whose paths are pairwise distinct
    a field commit ([saveEdit]) returns, and the paths are pairwise
    distinct afterwards, whether it succeeded or not; a duplicate error
    leaves the model and the registry file as they were; a successful
    commit is on disk; a Path commit whose expanded value is the path of
    another record fails with the duplicate error. The add action itself
    checks nothing: it appends the placeholder record, which keeps the
    paths distinct only if no record has the placeholder path. *)
Theorem field_commit_keeps_paths_distinct (w : World) (m : model) :
  NoDup (Path <$> configs m) → Columns (table m) ≠ [] →
  ∃ err m' w',
    saveEdit w m = Ok (err, m', w')
    ∧ NoDup (Path <$> configs m')
    ∧ (∀ name, err = Some (ErrDuplicate name) → m' = m ∧ w' = w)
    ∧ (err = None → disk w' = configs m')
    ∧ (∀ cur other j,
         editCol m = 3 → TrimSpace (textInput m) ≠ "" → 0 ≤ editRow m →
         configs m !! Z.to_nat (editRow m) = Some cur →
         configs m !! j = Some other → j ≠ Z.to_nat (editRow m) →
         Path other = ExpandPath w (TrimSpace (textInput m)) →
         err = Some (ErrDuplicate (Name other)))
    ∧ (∃ cmd ma,
         addNewConfig w m = Ok (cmd, ma)
         ∧ configs ma = configs m ++ [newConfig]
         ∧ (placeholderPath ∉ Path <$> configs m →
            NoDup (Path <$> configs ma))).
Proof.
  intros Hnd Hcols.
  assert (∃ cmd ma,
            addNewConfig w m = Ok (cmd, ma)
            ∧ configs ma = configs m ++ [newConfig]
            ∧ (placeholderPath ∉ Path <$> configs m →
               NoDup (Path <$> configs ma))) as Hadd.
  { destruct (addNewConfig_appends w m Hcols) as (cmd & ma & Ha & Hc & _).
    exists cmd, ma. split; [done|]. split; [done|]. intros Hfresh.
    rewrite Hc, fmap_app. apply NoDup_app. split; [done|]. split.
    - intros p Hp Hin. apply list_elem_of_singleton in Hin. by subst.
    - apply NoDup_singleton. }
  unfold saveEdit.
  destruct (Z.ltb_spec (editRow m) 0) as [Hneg|Hrow0]; simpl.
  { exists (Some ErrInvalidEditRow), m, w. repeat split; try done. lia. }
  destruct (Z.geb_spec (editRow m) (len (configs m))) as [Hbig|Hrow1].
  { exists (Some ErrInvalidEditRow), m, w. repeat split; try done.
    intros cur other j _ _ _ Hcur. apply lookup_lt_Some in Hcur.
    unfold len in *. lia. }
  destruct (lookup_lt_is_Some_2 (configs m) (Z.to_nat (editRow m)))
    as [cur Hcur]; [unfold len in *; lia|].
  rewrite (index_lookup _ _ cur) by done. cbn [mbind res_bind].
  destruct (saveEdit_switch w m cur (TrimSpace (textInput m)))
    as [e|m1] eqn:Hsw.
  - exists (Some e), m, w. repeat split; try done.
    intros cur' other j Hcol Hval _ Hcur' Hj Hne Hp.
    assert (cur' = cur) as -> by congruence.
    rewrite (saveEdit_switch_dup w m cur other j) in Hsw by done.
    congruence.
  - destruct (saveEdit_switch_inr w m cur _ m1 Hcur Hnd Hsw)
      as (Hnd1 & Hlen1 & Ht1 & Hs1).
    assert (∀ cur' other j,
      editCol m = 3 → TrimSpace (textInput m) ≠ "" → 0 ≤ editRow m →
      configs m !! Z.to_nat (editRow m) = Some cur' →
      configs m !! j = Some other → j ≠ Z.to_nat (editRow m) →
      Path other = ExpandPath w (TrimSpace (textInput m)) → False) as Hnodup.
    { intros cur' other j Hcol Hval _ Hcur' Hj Hne Hp.
      assert (cur' = cur) as -> by congruence.
      rewrite (saveEdit_switch_dup w m cur other j) in Hsw by done.
      congruence. }
    unfold Save. destruct (save_fails w) eqn:Hsave.
    + exists (Some ErrSave), m1, w. repeat split; try done.
      intros; exfalso; eauto.
    + destruct (updateTable_result (set_disk (configs m1) w)
                  (set_cacheValid false m1))
        as (m2 & -> & _ & _ & _ & _ & _ & Hc2 & _);
        [left; destruct m1; simpl in *; congruence|].
      cbn [mbind res_bind].
      assert (configs m2 = configs m1) as Hc2' by (rewrite Hc2; by destruct m1).
      exists None, m2, (set_disk (configs m1) w).
      rewrite Hc2'. repeat split; try done.
      intros; exfalso; eauto.
Qed.

End StoreClaims.

(** C1 as written fails for the add action. From the empty
    registry: add, Enter on the Name field (the commit writes the
    placeholder record to disk, the cancel that follows drops it from
    memory only), reload, add again. The second add succeeds and the store
    holds two records with the same path. *)
Lemma add_duplicates_counterexample :
  ∃ m0 m1 m2 m3 m4 c1 c2 c3 c4 w1 w2 w3 w4,
    (m ← @adjustLayout refLib (newModel []); @updateTable refLib world0 m) = Ok m0
    ∧ @Update refLib world0 m0 (KeyMsg "n") = Ok (m1, c1, w1)
    ∧ @Update refLib w1 m1 (KeyMsg "enter") = Ok (m2, c2, w2)
    ∧ @Update refLib w2 m2 (KeyMsg "r") = Ok (m3, c3, w3)
    ∧ NoDup (Path <$> configs m3)
    ∧ @Update refLib w3 m3 (KeyMsg "n") = Ok (m4, c4, w4)
    ∧ c4 = showStatus StAdding
    ∧ Path <$> configs m4 = [placeholderPath; placeholderPath]
    ∧ ¬ NoDup (Path <$> configs m4).
Proof.
  do 13 eexists.
  split; [vm_compute; reflexivity|].
  split; [vm_compute; reflexivity|].
  split; [vm_compute; reflexivity|].
  split; [vm_compute; reflexivity|].
  split; [vm_compute; repeat constructor; by intros ?%elem_of_nil|].
  split; [vm_compute; reflexivity|].
  split; [reflexivity|]. split; [reflexivity|].
  vm_compute. intros Hnd. apply NoDup_cons in Hnd as [Hnotin _].
  apply Hnotin. by left.
Qed.

(** * The declared columns through [Update] *)

Lemma narrowed_refl cols : narrowed cols cols.
Proof. by left. Qed.

Lemma narrowed_trans a b c : narrowed a b → narrowed b c → narrowed a c.
Proof.
  intros [Hab|(f & r & x & Ha & Hx & Hb)] [Hbc|(f' & r' & y & Hb' & Hy & Hc)].
  - left. congruence.
  - right. exists f', r', y. subst. done.
  - right. exists f, r, x. subst. done.
  - right. rewrite Hb in Hb'. injection Hb' as Hf Hr.
    exists f, r, y. rewrite <-Hf in Hy, Hc. simpl in Hy, Hc.
    split; [done|]. split; [lia|]. by rewrite Hc, Hr.
Qed.

Section Frames.
Context `{GoLib}.

(** [updateTable] does not touch the declared columns. *)
Lemma updateTable_allColumns w m m' :
  updateTable w m = Ok m' → allColumns m' = allColumns m.
Proof.
  unfold updateTable.
  pose proof (getFilteredConfigs_frame m) as Hfr. simpl in Hfr.
  pose proof (getSortedConfigs_frame m) as Hf. simpl in Hf.
  rewrite <-Hfr in Hf. destruct Hf as (_&_&_&_&_&_&_&Hac&_).
  destruct (getFilteredConfigs m) as [f m1]. simpl in *.
  destruct (updateTable_loop _ _ _ _ _) as [st|]; [|done].
  cbn [mbind res_bind]. destruct (SetRows _ _); [|done].
  cbn [mbind res_bind]. intros [= <-]. by destruct m1.
Qed.

Lemma getFilteredConfigs_allColumns m :
  allColumns (getFilteredConfigs m).2 = allColumns m.
Proof.
  rewrite getFilteredConfigs_frame.
  by destruct (getSortedConfigs_frame m) as (_&_&_&_&_&_&_&Hac&_).
Qed.

Lemma getConfigByDisplayIndex_allColumns m d o m' :
  getConfigByDisplayIndex m d = Ok (o, m') → allColumns m' = allColumns m.
Proof.
  unfold getConfigByDisplayIndex.
  pose proof (getFilteredConfigs_allColumns m) as Hf.
  destruct (_ || _); [by intros [= _ <-]|].
  destruct (index _ _) as [ci|]; [|done]. cbn [mbind res_bind].
  destruct (ci =? -1); [by intros [= _ <-]|].
  destruct (getFilteredConfigs m) as [f m1]. simpl in Hf.
  destruct (ci >=? len f); [by intros [= _ <-]|].
  destruct (index f ci); [|done]. cbn [mbind res_bind]. by intros [= _ <-].
Qed.

Lemma getOriginalIndexByDisplayIndex_allColumns m d i m' :
  getOriginalIndexByDisplayIndex m d = Ok (i, m') →
  allColumns m' = allColumns m.
Proof.
  unfold getOriginalIndexByDisplayIndex.
  pose proof (getFilteredConfigs_allColumns m) as Hf.
  destruct (_ || _); [by intros [= _ <-]|].
  destruct (index _ _) as [ci|]; [|done]. cbn [mbind res_bind].
  destruct (ci =? -1); [by intros [= _ <-]|].
  destruct (getFilteredConfigs m) as [f m1]. simpl in Hf.
  destruct (ci >=? len f); [by intros [= _ <-]|].
  destruct (index f ci); [|done]. cbn [mbind res_bind]. by intros [= _ <-].
Qed.

Lemma findConfigDisplayIndex_loop_allColumns R ci d m i m' :
  findConfigDisplayIndex_loop R ci d m = Ok (i, m') →
  allColumns m' = allColumns m.
Proof.
  revert d m. induction ci as [|z ci IH]; intros d m; simpl.
  { by intros [= _ <-]. }
  destruct (z =? -1); [apply IH|].
  pose proof (getFilteredConfigs_allColumns m) as Hf.
  destruct (getFilteredConfigs m) as [f m1]. simpl in Hf.
  destruct (z <? len f).
  - destruct (index f z) as [c|]; [|done]. cbn [mbind res_bind].
    destruct (Equals c R); [intros [= _ <-]; done|].
    intros Hl. apply IH in Hl. congruence.
  - intros Hl. apply IH in Hl. congruence.
Qed.

Lemma loadEditField_allColumns m : allColumns (loadEditField m) = allColumns m.
Proof.
  unfold loadEditField. destruct (_ || _); [done|].
  by destruct (configs m !! _).
Qed.

Lemma saveEdit_switch_allColumns w m cur value m1 :
  saveEdit_switch w m cur value = inr m1 → allColumns m1 = allColumns m.
Proof.
  unfold saveEdit_switch, storeField.
  repeat (case_match; simplify_eq/=; try done); by intros [= <-].
Qed.

Lemma saveEdit_allColumns w m err m' w' :
  saveEdit w m = Ok (err, m', w') → allColumns m' = allColumns m.
Proof.
  unfold saveEdit. destruct (_ || _); [by intros [= _ <- _]|].
  destruct (index _ _) as [cur|]; [|done]. cbn [mbind res_bind].
  destruct (saveEdit_switch _ _ _ _) as [e|m1] eqn:Hsw;
    [by intros [= _ <- _]|].
  apply saveEdit_switch_allColumns in Hsw.
  unfold Save. destruct (save_fails w); [intros [= _ <- _]; done|].
  destruct (updateTable _ _) as [m2|] eqn:Hu; [|done].
  apply updateTable_allColumns in Hu. cbn [mbind res_bind].
  intros [= _ <- _]. simpl in Hu. congruence.
Qed.

Lemma cancelEdit_allColumns w m m' :
  cancelEdit w m = Ok m' → allColumns m' = allColumns m.
Proof.
  unfold cancelEdit. intros Hu. apply updateTable_allColumns in Hu.
  rewrite Hu. simpl. repeat (case_match; simpl; try done).
Qed.

Lemma addNewConfig_allColumns w m cmd m' :
  addNewConfig w m = Ok (cmd, m') → allColumns m' = allColumns m.
Proof.
  unfold addNewConfig.
  destruct (updateTable _ _) as [m1|] eqn:Hu; [|done].
  apply updateTable_allColumns in Hu. rewrite loadEditField_allColumns in Hu.
  simpl in Hu. cbn [mbind res_bind].
  destruct (findConfigDisplayIndex m1 newConfig) as [[i m2]|] eqn:Hf; [|done].
  apply findConfigDisplayIndex_loop_allColumns in Hf. cbn [mbind res_bind].
  destruct (i =? -1); cbn [mbind res_bind].
  - intros [= _ <-]. congruence.
  - destruct (SetCursor _ _); [|done]. cbn [mbind res_bind].
    intros [= _ <-]. simpl. congruence.
Qed.

Lemma startEdit_allColumns m cmd m' :
  startEdit m = Ok (cmd, m') → allColumns m' = allColumns m.
Proof.
  unfold startEdit. destruct (_ =? 0); [by intros [= _ <-]|].
  destruct (getOriginalIndexByDisplayIndex _ _) as [[row m1]|] eqn:Hg;
    [|done].
  apply getOriginalIndexByDisplayIndex_allColumns in Hg.
  cbn [mbind res_bind]. destruct (row =? -1); intros [= _ <-].
  - done.
  - by rewrite loadEditField_allColumns.
Qed.

(** The layout leaves the declared columns as they were, or narrows the
    first one to the available width. *)
Lemma adjustLayout_narrowed m m' :
  adjustLayout m = Ok m' → narrowed (allColumns m) (allColumns m').
Proof.
  intros Ha.
  destruct (decide (allColumns m = [])) as [Hnil|Hne].
  { by rewrite adjustLayout_panics_empty in Ha. }
  destruct (Z.lt_ge_cases (scrollOffset m) 0) as [Hneg|Hso].
  { by rewrite adjustLayout_panics_negative in Ha. }
  destruct (adjustLayout_eq m Hso Hne) as (k & Hg & Heq).
  cbv zeta in Heq. destruct Heq as (_ & _ & _ & _ & Heq).
  rewrite Heq in Ha.
  destruct (SetColumns _ _) as [t|]; [|done]. cbn [mbind res_bind] in Ha.
  destruct (SetHeight _ _) as [t'|]; [|done]. cbn [mbind res_bind] in Ha.
  injection Ha as <-. simpl.
  destruct (decide (k = 0%nat)) as [->|Hk]; [|by left].
  destruct (allColumns m) as [|first rest]; [done|]. right.
  exists first, rest, (width m - 6). split; [done|]. split; [|done].
  destruct Hg as (_ & _ & Hnext). specialize (Hnext ltac:(simpl; lia)).
  simpl in Hnext. rewrite usedWidth_cons in Hnext.
  unfold usedWidth in Hnext. simpl in Hnext. lia.
Qed.

Lemma relayout_narrowed w m m' c w' :
  (m ← adjustLayout m; m ← updateTable w m; Ok (m, NoCmd, w))
  = Ok (m', c, w') →
  narrowed (allColumns m) (allColumns m').
Proof.
  destruct (adjustLayout m) as [m1|] eqn:Ha; [|done].
  apply adjustLayout_narrowed in Ha. cbn [mbind res_bind].
  destruct (updateTable w m1) as [m2|] eqn:Hu; [|done].
  apply updateTable_allColumns in Hu. cbn [mbind res_bind].
  intros [= <- _ _]. by rewrite Hu.
Qed.

Lemma updateDeleteConfirm_allColumns w m key m' c w' :
  updateDeleteConfirm w m key = Ok (m', c, w') →
  allColumns m' = allColumns m.
Proof.
  unfold updateDeleteConfirm. destruct (key_in key ["y"; "Y"]).
  - destruct (_ && _); [|by intros [= <- _ _]].
    destruct (index _ _) as [x|]; [|done]. cbn [mbind res_bind].
    unfold Save. destruct (save_fails w); cbn [negb].
    { by intros [= <- _ _]. }
    destruct (updateTable _ _) as [m1|] eqn:Hu; [|done].
    apply updateTable_allColumns in Hu. cbn [mbind res_bind].
    intros [= <- _ _]. simpl in *. congruence.
  - destruct (key_in key _); by intros [= <- _ _].
Qed.

Lemma updateEdit_allColumns w m key m' c w' :
  updateEdit w m key = Ok (m', c, w') → allColumns m' = allColumns m.
Proof.
  unfold updateEdit.
  destruct (key_in key ["esc"]).
  { destruct (cancelEdit w m) as [m1|] eqn:Hc; [|done].
    apply cancelEdit_allColumns in Hc. cbn [mbind res_bind].
    intros [= <- _ _]. done. }
  destruct (key_in key ["enter"]).
  { destruct (saveEdit w m) as [[[err m1] w1]|] eqn:Hs; [|done].
    apply saveEdit_allColumns in Hs. cbn [mbind res_bind].
    destruct err; [by intros [= <- _ _]|].
    destruct (cancelEdit w1 m1) as [m2|] eqn:Hc; [|done].
    apply cancelEdit_allColumns in Hc. cbn [mbind res_bind].
    destruct (bool_decide _); intros [= <- _ _]; congruence. }
  destruct (key_in key ["tab"]).
  { destruct (saveEdit w m) as [[[err m1] w1]|] eqn:Hs; [|done].
    apply saveEdit_allColumns in Hs. cbn [mbind res_bind].
    destruct err; intros [= <- _ _]; [done|].
    by rewrite loadEditField_allColumns. }
  destruct (key_in key ["shift+tab"]).
  { destruct (saveEdit w m) as [[[err m1] w1]|] eqn:Hs; [|done].
    apply saveEdit_allColumns in Hs. cbn [mbind res_bind].
    destruct err; intros [= <- _ _]; [done|].
    by rewrite loadEditField_allColumns. }
  by intros [= <- _ _].
Qed.

Lemma updateSearch_allColumns w m key m' c w' :
  updateSearch w m key = Ok (m', c, w') → allColumns m' = allColumns m.
Proof.
  unfold updateSearch.
  destruct (key_in key ["esc"]).
  { destruct (updateTable _ _) as [m1|] eqn:Hu; [|done].
    apply updateTable_allColumns in Hu. cbn [mbind res_bind].
    by intros [= <- _ _]. }
  destruct (key_in key ["enter"]).
  { destruct (updateTable _ _) as [m1|] eqn:Hu; [|done].
    apply updateTable_allColumns in Hu. cbn [mbind res_bind].
    destruct (negb _); [|by intros [= <- _ _]].
    unfold getFilteredConfigsCount.
    pose proof (getFilteredConfigs_allColumns m1) as Hf.
    destruct (getFilteredConfigs m1) as [f m2]. simpl in *.
    intros [= <- _ _]. congruence. }
  destruct (updateTable _ _) as [m1|] eqn:Hu; [|done].
  apply updateTable_allColumns in Hu. cbn [mbind res_bind].
  by intros [= <- _ _].
Qed.

Lemma updateNormal_narrowed w m key m' c w' :
  updateNormal w m key = Ok (m', c, w') →
  narrowed (allColumns m) (allColumns m').
Proof.
  assert (∀ c0, (t ← SetCursor c0 (table m); Ok (set_table t m, NoCmd, w))
                = Ok (m', c, w') → narrowed (allColumns m) (allColumns m'))
    as Hcur.
  { intros c0. destruct (SetCursor _ _); [|done]. cbn [mbind res_bind].
    intros [= <- _ _]. by left. }
  unfold updateNormal.
  destruct (key_in key ["q"; "ctrl+c"]). { intros [= <- _ _]. by left. }
  destruct (key_in key ["?"]). { intros [= <- _ _]. by left. }
  destruct (key_in key ["/"]). { intros [= <- _ _]. by left. }
  destruct (key_in key ["ctrl+f"]). { intros [= <- _ _]. by left. }
  destruct (key_in key ["s"]).
  { unfold updateNormal_sort.
    destruct (updateTable _ _) as [m1|] eqn:Hu; [|done].
    apply updateTable_allColumns in Hu. cbn [mbind res_bind].
    destruct (sortByRecent m1); intros [= <- _ _]; by left. }
  destruct (key_in key ["e"]).
  { destruct (startEdit m) as [[cmd m1]|] eqn:Hs; [|done].
    apply startEdit_allColumns in Hs. cbn [mbind res_bind].
    intros [= <- _ _]. by left. }
  destruct (key_in key ["n"; "a"]).
  { destruct (addNewConfig w m) as [[cmd m1]|] eqn:Hs; [|done].
    apply addNewConfig_allColumns in Hs. cbn [mbind res_bind].
    intros [= <- _ _]. by left. }
  destruct (key_in key ["d"; "delete"]).
  { unfold updateNormal_delete.
    destruct (_ >? 0); [|intros [= <- _ _]; by left].
    destruct (getOriginalIndexByDisplayIndex _ _) as [[i m1]|] eqn:Hg;
      [|done].
    apply getOriginalIndexByDisplayIndex_allColumns in Hg.
    cbn [mbind res_bind].
    destruct (i =? -1); [intros [= <- _ _]; by left|].
    destruct (index _ _); [|done]. cbn [mbind res_bind].
    intros [= <- _ _]. by left. }
  destruct (key_in key [" "; "enter"]).
  { unfold updateNormal_open.
    destruct (_ >? 0); [|intros [= <- _ _]; by left].
    destruct (getConfigByDisplayIndex _ _) as [[o m1]|] eqn:Hg; [|done].
    apply getConfigByDisplayIndex_allColumns in Hg. cbn [mbind res_bind].
    destruct o as [[k x]|]; [|intros [= <- _ _]; by left].
    destruct (findEqual _ _ _) as [[i y]|].
    - unfold Save. destruct (save_fails w);
        (destruct (index _ _); [|done]); cbn [mbind res_bind];
        intros [= <- _ _]; by left.
    - destruct (index _ _); [|done]. cbn [mbind res_bind].
      intros [= <- _ _]. by left. }
  destruct (key_in key ["r"]).
  { unfold updateNormal_reload. destruct (Load w);
      [|intros [= <- _ _]; by left].
    destruct (updateTable _ _) as [m1|] eqn:Hu; [|done].
    apply updateTable_allColumns in Hu. cbn [mbind res_bind].
    intros [= <- _ _]. by left. }
  destruct (key_in key ["left"; "h"]).
  { unfold updateNormal_left.
    destruct (_ >? 0); [|intros [= <- _ _]; by left].
    intros Hr. by apply relayout_narrowed in Hr. }
  destruct (key_in key ["right"; "l"]).
  { unfold updateNormal_right.
    destruct (_ <? _); [|intros [= <- _ _]; by left].
    intros Hr. by apply relayout_narrowed in Hr. }
  destruct (key_in key ["k"; "up"; "j"; "down"]).
  { intros [= <- _ _]. by left. }
  destruct (key_in key ["g"; "home"]). { by apply Hcur. }
  destruct (key_in key ["G"; "end"]). { by apply Hcur. }
  destruct (key_in key ["pageup"; "ctrl+u"]). { by apply Hcur. }
  destruct (key_in key ["pagedown"; "ctrl+d"]). { by apply Hcur. }
  intros [= <- _ _]. by left.
Qed.

(** No message gives a declared column its width back: [Update] leaves
    the declared columns as they were, or with the first one narrowed. *)
Lemma Update_narrowed w m msg m' c w' :
  Update w m msg = Ok (m', c, w') → narrowed (allColumns m) (allColumns m').
Proof.
  destruct msg as [key|Width Height]; cbn [Update].
  - destruct (mode m).
    + apply updateNormal_narrowed.
    + intros Hu%updateEdit_allColumns. by left.
    + intros Hu%updateEdit_allColumns. by left.
    + intros Hu%updateSearch_allColumns. by left.
    + intros [= <- _ _]. by left.
    + intros Hu%updateDeleteConfirm_allColumns. by left.
  - intros Hr. by apply relayout_narrowed in Hr.
Qed.

Lemma run_narrowed m events m' :
  run m events = Ok m' → narrowed (allColumns m) (allColumns m').
Proof.
  revert m. induction events as [|[w msg] events IH]; intros m; cbn [run].
  { intros [= <-]. apply narrowed_refl. }
  destruct (Update w m msg) as [[[m1 c1] w1]|] eqn:Hu; [|done].
  cbn [mbind res_bind]. intros Hr.
  eapply narrowed_trans; [by eapply Update_narrowed|by apply IH].
Qed.

End Frames.

(** * The column layout: what the table shows *)


Section LayoutClaims.
Context `{GoLib}.

Lemma UpdateViewport_Ok t t' : UpdateViewport t = Ok t' → t' = t.
Proof. unfold UpdateViewport. destruct (forallb _ _); by intros [= <-]. Qed.

(** A table without rows takes any columns and any height. *)
Lemma SetColumns_no_rows c t : Rows t = [] → SetColumns c t = Ok (withColumns c t).
Proof.
  intros Hr. unfold SetColumns. apply UpdateViewport_fit. simpl.
  rewrite Hr. intros row Hrow. by apply elem_of_nil in Hrow.
Qed.

Lemma SetHeight_no_rows h t : Rows t = [] → SetHeight h t = Ok (withHeight h t).
Proof.
  intros Hr. unfold SetHeight. apply UpdateViewport_fit. simpl.
  rewrite Hr. intros row Hrow. by apply elem_of_nil in Hrow.
Qed.

(** What [adjustLayout] has computed when it returns. *)
Lemma adjustLayout_returns m m' :
  adjustLayout m = Ok m' →
  0 ≤ scrollOffset m ∧ allColumns m ≠ []
  ∧ ∃ k : nat,
      isGreedyPrefix (allColumns m) (width m - 6) k
      ∧ let avail := width m - 6 in
        let count := if decide (k = 0%nat) then 1%nat else k in
        let start :=
          Z.to_nat (Z.min (scrollOffset m)
                      (len (allColumns m) - Z.of_nat count)) in
        allColumns m'
        = (if decide (k = 0%nat)
           then match allColumns m with
                | c :: rest => {| Title := Title c; Width := avail |} :: rest
                | [] => []
                end
           else allColumns m)
        ∧ scrollOffset m' = Z.of_nat start
        ∧ Columns (table m')
          = withLeftover avail (take count (drop start (allColumns m')))
        ∧ length (Columns (table m')) = count
        ∧ (start + count ≤ length (allColumns m))%nat.
Proof.
  intros Ha.
  destruct (decide (allColumns m = [])) as [Hnil|Hne].
  { by rewrite adjustLayout_panics_empty in Ha. }
  destruct (Z.lt_ge_cases (scrollOffset m) 0) as [Hneg|Hso].
  { by rewrite adjustLayout_panics_negative in Ha. }
  split; [done|]. split; [done|].
  destruct (adjustLayout_eq m Hso Hne) as (k & Hg & Heq).
  cbv zeta in Heq. destruct Heq as (_ & Hstart & Hlen' & Hwlen & Heq).
  exists k. split; [done|]. cbv zeta. rewrite Heq in Ha.
  destruct (SetColumns _ _) as [t|] eqn:Ec; [|done].
  apply UpdateViewport_Ok in Ec. cbn [mbind res_bind] in Ha.
  destruct (SetHeight _ _) as [t'|] eqn:Eh; [|done].
  apply UpdateViewport_Ok in Eh. cbn [mbind res_bind] in Ha.
  injection Ha as <-. subst t' t. simpl. repeat split; done.
Qed.


(** C10. When at least one column fits, [adjustLayout] leaves the
    declared columns as they are; when none fits it overwrites the width
    of the first declared column with availableWidth, which is smaller.
    The list it writes is fixed before the table widget is called, and
    the layout returns whenever the widget takes the new window. No message
    undoes the overwrite: [Update], and so every run of the event loop,
    leaves the declared columns as they were or narrows the first one
    again, and each later layout computes its greedy prefix from the
    columns as they were left. After a zero-fit at width 20 the layout at
    width 100 shows Name with width 14 and four columns, where the
    declared 25 gives three. *)
Theorem layout_overwrites_first_width (m : model) :
  0 ≤ scrollOffset m → allColumns m ≠ [] →
  ∃ k : nat,
    isGreedyPrefix (allColumns m) (width m - 6) k
    ∧ (let written :=
         if decide (k = 0%nat)
         then match allColumns m with
              | c :: rest =>
                  {| Title := Title c; Width := width m - 6 |} :: rest
              | [] => []
              end
         else allColumns m in
       ∃ visible tableHeight offset,
         adjustLayout m
         = (t ← SetColumns visible (table m);
            t ← SetHeight tableHeight t;
            Ok (set_maxCols (len written)
                  (set_table t
                     (set_scrollOffset offset
                        (set_allColumns written m))))))
    ∧ (rowsFit m → ∃ m', adjustLayout m = Ok m')
    ∧ (∀ m', adjustLayout m = Ok m' →
         (k ≠ 0%nat → allColumns m' = allColumns m)
         ∧ (k = 0%nat →
            ∃ first rest, allColumns m = first :: rest
              ∧ width m - 6 < Width first
              ∧ allColumns m'
                = {| Title := Title first; Width := width m - 6 |} :: rest)
         ∧ (∀ w msg m2 c w2, Update w m' msg = Ok (m2, c, w2) →
              narrowed (allColumns m') (allColumns m2))
         ∧ (∀ events m2, run m' events = Ok m2 →
              narrowed (allColumns m') (allColumns m2)
              ∧ ∀ m3, adjustLayout m2 = Ok m3 →
                  ∃ k2 : nat,
                    isGreedyPrefix (allColumns m2) (width m2 - 6) k2
                    ∧ length (Columns (table m3))
                      = if decide (k2 = 0%nat) then 1%nat else k2))
    ∧ (m1 ← adjustLayout (sized 20 0 (newModel []));
       m2 ← adjustLayout (sized 100 0 m1);
       Ok (allColumns m2, Columns (table m2)))
      = Ok ([ {| Title := "Name"; Width := 14 |};
              {| Title := "Project"; Width := 20 |};
              {| Title := "Type"; Width := 10 |};
              {| Title := "Path"; Width := 40 |};
              {| Title := "Description"; Width := 30 |} ],
            [ {| Title := "Name"; Width := 14 |};
              {| Title := "Project"; Width := 20 |};
              {| Title := "Type"; Width := 10 |};
              {| Title := "Path"; Width := 50 |} ])
    ∧ (m2 ← adjustLayout (sized 100 0 (newModel []));
       Ok (allColumns m2, Columns (table m2)))
      = Ok (declaredColumns,
            [ {| Title := "Name"; Width := 25 |};
              {| Title := "Project"; Width := 20 |};
              {| Title := "Type"; Width := 49 |} ]).
Proof.
  intros Hso Hne.
  destruct (adjustLayout_eq m Hso Hne) as (k & Hg & Heq).
  exists k. split; [done|]. split.
  { cbv zeta in Heq |- *. destruct Heq as (_ & _ & _ & _ & Heq).
    by eexists _, _, _. }
  split.
  { intros Hfit.
    destruct (adjustLayout_result m Hso Hne Hfit) as (k' & m' & Hm' & _).
    by exists m'. }
  split.
  { intros m' Hm'.
    destruct (adjustLayout_returns m m' Hm') as (_ & _ & k' & Hg' & Hres).
    cbv zeta in Hres. destruct Hres as (Hall & _).
    assert (k' = k) as ->.
    { destruct Hg as (Hk & Hpre & Hnext), Hg' as (Hk' & Hpre' & Hnext').
      destruct (Nat.lt_trichotomy k' k) as [Hlt|[->|Hlt]]; [|done|].
      - specialize (Hnext' ltac:(lia)). specialize (Hpre (S k') ltac:(lia)).
        lia.
      - specialize (Hnext ltac:(lia)). specialize (Hpre' (S k) ltac:(lia)).
        lia. }
    split; [|split; [|split]].
    - intros Hk. by rewrite Hall, decide_False.
    - intros ->. rewrite Hall, decide_True by done.
      destruct (allColumns m) as [|first rest]; [done|].
      exists first, rest. split; [done|]. split; [|done].
      destruct Hg as (_ & _ & Hnext). specialize (Hnext ltac:(simpl; lia)).
      simpl in Hnext. rewrite usedWidth_cons in Hnext.
      unfold usedWidth in Hnext. simpl in Hnext. lia.
    - intros w msg m2 c w2. apply Update_narrowed.
    - intros events m2 Hrun. split; [by apply (run_narrowed m' events m2)|].
      intros m3 Hm3.
      destruct (adjustLayout_returns m2 m3 Hm3)
        as (_ & _ & k2 & Hg2 & Hres2).
      cbv zeta in Hres2. destruct Hres2 as (_ & _ & _ & Hlen2 & _).
      by exists k2. }
  split.
  - unfold adjustLayout. simpl.
    rewrite SetColumns_no_rows by done. cbn [mbind res_bind].
    rewrite SetHeight_no_rows by done. cbn [mbind res_bind]. simpl.
    rewrite SetColumns_no_rows by done. cbn [mbind res_bind].
    rewrite SetHeight_no_rows by done. reflexivity.
  - unfold adjustLayout. simpl.
    rewrite SetColumns_no_rows by done. cbn [mbind res_bind].
    rewrite SetHeight_no_rows by done. reflexivity.
Qed.

End LayoutClaims.


(** The layout does not return when the widget holds rows with more cells
    than the new window has columns: with one record on screen in three
    columns, a terminal narrowed to 40 cells leaves room for one column,
    and [SetColumns] panics while it renders the rows of three cells. *)
Lemma resize_with_rows_panics :
  ∃ m0,
    @initModel refLib world0 [entry "hosts" "" "/etc/hosts"] = Ok m0
    ∧ length (Columns (table m0)) = 3%nat
    ∧ Rows (table m0)
      = [[markFolder +:+ "General"; ""; ""]; ["hosts"; "General"; ""]]
    ∧ layoutCount (allColumns m0) (40 - 6) = 1
    ∧ @Update refLib world0 m0 (WindowSizeMsg 40 24) = Panic
    ∧ ∃ m1 c1 w1,
        @Update refLib world0 m0 (WindowSizeMsg 200 24) = Ok (m1, c1, w1)
        ∧ length (Columns (table m1)) = 5%nat.
Proof.
  eexists. split; [vm_compute; reflexivity|].
  split; [reflexivity|]. split; [reflexivity|]. split; [reflexivity|].
  split; [vm_compute; reflexivity|].
  do 3 eexists. split; [vm_compute; reflexivity|]. reflexivity.
Qed.

(** * The resolvers after a failed save *)

(** C2. The round trip fails after a save that fails. With the records a
    (project web) and b (no project) on screen and a registry file that
    cannot be written, the keys down, d, y take b out of the store and
    return before the cache is invalidated and the table rebuilt: b is
    still in the filtered list and on row 1, [findConfigDisplayIndex]
    gives 1 for it, and [getConfigByDisplayIndex] at 1 returns nil. A
    commit of a new name for b in edit mode that cannot be saved leaves
    the same state: the row of b resolves to nil. When the file can be
    written the same keys rebuild the table, and the round trip holds for
    the record that is left. *)
Theorem resolver_stale_after_failed_save :
  let a := entry "a" "web" "/p/a" in
  let b := entry "b" "" "/p/b" in
  let keys := [KeyMsg "down"; KeyMsg "d"; KeyMsg "y"] in
  ∃ m0 m3 m3' e me we,
    @initModel refLib worldNoSave [a; b] = Ok m0
    ∧ Rows (table m0)
      = [[markFolder +:+ "General"; ""; ""]; [markMissing +:+ "b"; "General"; ""];
         [markFolder +:+ "web"; ""; ""]; [markMissing +:+ "a"; "web"; ""]]
    ∧ @run refLib m0 ((λ k, (worldNoSave, k)) <$> keys) = Ok m3
    ∧ configs m3 = [a] ∧ cacheValid m3 = true ∧ mode m3 = ModeNormal
    ∧ Rows (table m3) = Rows (table m0)
    ∧ (@getFilteredConfigs refLib m3).1 = [b; a]
    ∧ @findConfigDisplayIndex refLib m3 b = Ok (1, m3)
    ∧ @getConfigByDisplayIndex refLib m3 1 = Ok (None, m3)
    ∧ @saveEdit refLib worldNoSave
        (set_textInput "c" (set_editCol 0 (set_editRow 1 (set_mode ModeEdit m0))))
      = Ok (Some e, me, we)
    ∧ configs me = [a; entry "c" "" "/p/b"] ∧ cacheValid me = true
    ∧ (@getFilteredConfigs refLib me).1 = [b; a]
    ∧ @findConfigDisplayIndex refLib me b = Ok (1, me)
    ∧ @getConfigByDisplayIndex refLib me 1 = Ok (None, me)
    ∧ @run refLib m0 ((λ k, (world0, k)) <$> keys) = Ok m3'
    ∧ configs m3' = [a]
    ∧ (@getFilteredConfigs refLib m3').1 = [a]
    ∧ @findConfigDisplayIndex refLib m3' a = Ok (1, m3')
    ∧ @getConfigByDisplayIndex refLib m3' 1 = Ok (Some (0, a), m3').
Proof.
  cbv zeta. do 6 eexists.
  split; [vm_compute; reflexivity|]. split; [reflexivity|].
  split; [vm_compute; reflexivity|].
  split; [reflexivity|]. split; [reflexivity|]. split; [reflexivity|].
  split; [reflexivity|].
  split; [vm_compute; reflexivity|]. split; [vm_compute; reflexivity|].
  split; [vm_compute; reflexivity|].
  split; [vm_compute; reflexivity|].
  split; [reflexivity|]. split; [reflexivity|].
  split; [vm_compute; reflexivity|]. split; [vm_compute; reflexivity|].
  split; [vm_compute; reflexivity|].
  split; [vm_compute; reflexivity|].
  split; [reflexivity|].
  split; [vm_compute; reflexivity|]. split; [vm_compute; reflexivity|].
  vm_compute; reflexivity.
Qed.


(** * Worked instances *)

(** The duplicate check at work: editing the path of the second record to
    the path of the first is refused, and nothing changes. *)
Lemma field_commit_witness :
  NoDup (Path <$> configs editingPath)
  ∧ Columns (table editingPath) ≠ []
  ∧ ∃ m' w',
      @saveEdit refLib world0 editingPath
      = Ok (Some (ErrDuplicate "a"), m', w')
      ∧ m' = editingPath ∧ w' = world0.
Proof.
  assert (NoDup (Path <$> configs editingPath)) as Hnd
    by (apply (bool_decide_unpack _); vm_compute; exact I).
  assert (Columns (table editingPath) ≠ []) as Hcols by done.
  split; [exact Hnd|]. split; [exact Hcols|].
  destruct (@field_commit_keeps_paths_distinct refLib world0 editingPath
              Hnd Hcols)
    as (err & m' & w' & Hs & _ & Hatomic & _ & Hdup & _).
  assert (err = Some (ErrDuplicate "a")) as ->.
  { apply (Hdup (entry "b" "" "/p/b") (entry "a" "web" "/p/a") 0%nat);
      done. }
  exists m', w'. split; [exact Hs|]. by apply (Hatomic "a").
Defined.

(** The second call on the store of two records. *)
Lemma projection_memoized_witness :
  Columns (table (newModel twoRecords)) ≠ []
  ∧ ∃ m',
      @updateTable refLib world0 (newModel twoRecords) = Ok m'
      ∧ @updateTable refLib world0 m' = Ok m'
      ∧ cacheValid m' = true.
Proof.
  assert (Columns (table (newModel twoRecords)) ≠ []) as Hcols by done.
  split; [exact Hcols|].
  destruct (@projection_memoized refLib world0 (newModel twoRecords) Hcols)
    as (m' & Hu & Hu' & Hv & _).
  by exists m'.
Defined.


(** [y] on the first of two records. *)
Lemma delete_confirm_witness :
  0 ≤ deleteIndex confirming < len (configs confirming)
  ∧ Columns (table confirming) ≠ []
  ∧ mode confirming = ModeConfirmDelete
  ∧ ∃ m' c,
      @updateDeleteConfirm refLib world0 confirming "y"
      = Ok (m', showStatus (StDeleted (Name c)), set_disk (configs m') world0)
      ∧ len (configs m') = 1 ∧ mode m' = ModeNormal.
Proof.
  assert (0 ≤ deleteIndex confirming < len (configs confirming)) as Hdi
    by done.
  assert (Columns (table confirming) ≠ []) as Hcols by done.
  split; [exact Hdi|]. split; [exact Hcols|]. split; [reflexivity|].
  destruct (@delete_confirm_keys refLib world0 confirming "y" Hdi Hcols
              eq_refl) as (_ & Hyes & _).
  destruct (Hyes eq_refl eq_refl) as (m' & c & Hu & _ & _ & Hlen & Hm & _).
  exists m', c. split; [exact Hu|]. split; [exact Hlen|exact Hm].
Defined.

(** The index map of the store of two records. *)
Lemma index_map_parallel_witness :
  (Columns (table (newModel twoRecords)) ≠ []
   ∨ sortByRecent (newModel twoRecords) = true)
  ∧ ∃ m',
      @updateTable refLib world0 (newModel twoRecords) = Ok m'
      ∧ length (configIndices m') = length (Rows (table m'))
      ∧ List.filter (λ z, negb (z =? -1)) (configIndices m')
        = seqZ 0 (len (@getFilteredConfigs refLib m').1).
Proof.
  assert (Columns (table (newModel twoRecords)) ≠ []
          ∨ sortByRecent (newModel twoRecords) = true) as Hcols
    by (by left).
  split; [exact Hcols|].
  destruct (@index_map_parallel refLib world0 (newModel twoRecords) Hcols)
    as (m' & Hu & Hlen & _ & _ & _ & Hrec & _).
  by exists m'.
Defined.

(** The zero-fit at width 20: the greedy prefix is empty, the layout
    returns, and the first declared width is 14 afterwards. *)
Lemma layout_overwrites_witness :
  0 ≤ scrollOffset (sized 20 0 (newModel []))
  ∧ allColumns (sized 20 0 (newModel [])) ≠ []
  ∧ isGreedyPrefix declaredColumns 14 0
  ∧ ∃ m',
      @adjustLayout refLib (sized 20 0 (newModel [])) = Ok m'
      ∧ allColumns m'
        = {| Title := "Name"; Width := 14 |} :: tail declaredColumns
      ∧ ∀ events m2, @run refLib m' events = Ok m2 →
          narrowed (allColumns m') (allColumns m2).
Proof.
  assert (0 ≤ scrollOffset (sized 20 0 (newModel []))) as Hso by done.
  assert (allColumns (sized 20 0 (newModel [])) ≠ []) as Hne by done.
  split; [exact Hso|]. split; [exact Hne|].
  destruct (@layout_overwrites_first_width refLib (sized 20 0 (newModel []))
              Hso Hne)
    as (k & Hg & _ & Hret & Heff & _).
  assert (k = 0%nat) as ->.
  { destruct Hg as (_ & Hpre & _). destruct k as [|k]; [done|].
    specialize (Hpre 1%nat ltac:(lia)). vm_compute in Hpre. by destruct Hpre. }
  split; [exact Hg|].
  destruct Hret as (m' & Ha).
  { intros row Hrow. by apply elem_of_nil in Hrow. }
  exists m'. split; [exact Ha|].
  destruct (Heff m' Ha) as (_ & Hzero & _ & Hrun).
  destruct (Hzero eq_refl) as (first & rest & Hall & _ & Hall').
  injection Hall as <- <-. split; [exact Hall'|].
  intros events m2 Hr. by destruct (Hrun events m2 Hr).
Defined.
